(** * Cooking Compass: the serverless recipe endpoint (netlify/functions/compass.js)

    A shallow embedding of the request handler, its per-instance rate limiter
    and its string sanitizer, followed by the properties the specification
    states about them.

    Conventions of the embedding.
    - A JavaScript string is a [string]; one character stands for one UTF-16
      code unit (the development stays within the 8-bit range).
    - Time stamps ([Date.now()]) and the window are integers, [Z].
    - The map [recent] is a [gmap string Z], passed in and returned.
    - A thrown exception is [None]; the handler's outer [try/catch] turns it
      into the 500 response.
    - The depth at which the engine gives up a nested conversion with a
      [RangeError] differs between engines: it is a parameter, the class
      [Engine], and every theorem holds for each value of it.
    - [JSON.parse], [fetch] and the environment belong to the platform, not to
      the repository: they are arguments of the handler. *)

From Stdlib Require Import ZArith Ascii String List Bool Lia.
From stdpp Require Import gmap strings list.

Local Open Scope Z_scope.

(** ** JavaScript values *)

(** The program looks at a number in two ways only: its truthiness
    ([x || ...]) and its string conversion ([String(x)]).  A number is
    represented by what these two observations need: [+0] and [-0] are falsy
    and print as 0, [NaN] is falsy and prints as NaN, any other number is
    truthy and carries its decimal rendering. *)
Inductive number : Type :=
  | NumZero
  | NumNaN
  | NumOther (repr : string).

(** The values that reach the code: what [JSON.parse] builds, and [undefined]
    for a missing property.  An object is the list of its own properties in
    insertion order. *)
#[warnings="-register-all"]
Inductive value : Type :=
  | VUndefined
  | VNull
  | VBool (b : bool)
  | VNum (n : number)
  | VStr (s : string)
  | VArr (elems : list value)
  | VObj (props : list (string * value)).

(** [obj[k]] on the own properties of an object. *)
Fixpoint own_property (k : string) (props : list (string * value)) : option value :=
  match props with
  | [] => None
  | (k', v) :: rest => if String.eqb k k' then Some v else own_property k rest
  end.

Definition is_empty (s : string) : bool :=
  match s with
  | EmptyString => true
  | String _ _ => false
  end.

(** [ToBoolean]: the falsy values are [undefined], [null], [false], [0],
    [NaN] and the empty string; arrays and objects are truthy. *)
Definition ToBoolean (v : value) : bool :=
  match v with
  | VUndefined | VNull => false
  | VBool b => b
  | VNum NumZero | VNum NumNaN => false
  | VNum (NumOther _) => true
  | VStr s => negb (is_empty s)
  | VArr _ | VObj _ => true
  end.

Definition number_to_string (n : number) : string :=
  match n with
  | NumZero => "0"
  | NumNaN => "NaN"
  | NumOther repr => repr
  end.

(** The engine that runs the program.  The conversion of an array to a
    string converts its elements, an array among them in turn: the engine
    follows a bounded number of nested arrays, [stack_limit], and throws a
    [RangeError] (maximum call stack size exceeded) on a deeper one. *)
Class Engine : Type := { stack_limit : nat }.

(** [String(v)] with [depth] nested arrays to go.  An array is joined with
    commas, [undefined] and [null] elements giving the empty string.  A
    parsed object has the prototype's [toString], which prints
    [[object Object]], unless it has an own property named toString: a JSON
    value is never callable, the inherited [valueOf] returns the object
    itself, and the conversion throws a [TypeError]. *)
Fixpoint ToString_at (depth : nat) (v : value) {struct v} : option string :=
  match v with
  | VUndefined => Some "undefined"
  | VNull => Some "null"
  | VBool b => Some (if b then "true" else "false")
  | VNum n => Some (number_to_string n)
  | VStr s => Some s
  | VArr elems =>
      match depth with
      | O => None
      | S depth' =>
          (fix join (l : list value) : option string :=
             match l with
             | [] => Some ""
             | x :: rest =>
                 let sx := match x with
                           | VUndefined | VNull => Some ""
                           | _ => ToString_at depth' x
                           end in
                 match rest with
                 | [] => sx
                 | _ :: _ =>
                     match sx, join rest with
                     | Some a, Some b => Some (a +:+ "," +:+ b)
                     | _, _ => None
                     end
                 end
             end) elems
      end
  | VObj props =>
      match own_property "toString" props with
      | Some _ => None
      | None => Some "[object Object]"
      end
  end.

Section Program.

Context {engine : Engine}.

(** [String(v)] on the engine. *)
Definition ToString (v : value) : option string := ToString_at stack_limit v.

(** ** Strings *)

Fixpoint str_take (n : nat) (s : string) : string :=
  match n, s with
  | S n', String c s' => String c (str_take n' s')
  | _, _ => ""
  end.

(** [s.slice(0, max)] for an integer [max]: a negative end counts from the
    end of the string, and both ends are clamped to the string. *)
Definition slice0 (s : string) (max : Z) : string :=
  let len := Z.of_nat (String.length s) in
  let final := if max <? 0 then Z.max (len + max) 0 else Z.min max len in
  str_take (Z.to_nat final) s.

(** White space and line terminators of [String.prototype.trim] among the
    8-bit code units: TAB, LF, VT, FF, CR, SPACE and NBSP. *)
Definition is_js_space (c : ascii) : bool :=
  let n := N_of_ascii c in
  ((9 <=? n) && (n <=? 13) || (n =? 32) || (n =? 160))%N.

Fixpoint trim_start (s : string) : string :=
  match s with
  | EmptyString => ""
  | String c s' => if is_js_space c then trim_start s' else s
  end.

Fixpoint trim_end (s : string) : string :=
  match s with
  | EmptyString => ""
  | String c s' =>
      let r := trim_end s' in
      if is_js_space c && is_empty r then "" else String c r
  end.

Definition trim (s : string) : string := trim_end (trim_start s).

(** [s.startsWith(p)]. *)
Definition startsWith (s p : string) : bool := String.prefix p s.

(** ** The sanitizer

    [function safeString(x, max = 800) { return String(x || "").slice(0, max); }] *)
Definition safeString (x : value) (max : Z) : option string :=
  match ToString (if ToBoolean x then x else VStr "") with
  | Some s => Some (slice0 s max)
  | None => None
  end.

Definition safeString_default_max : Z := 800.

(** ** The rate limiter

    [recent.get(ip) || 0] is the recorded time stamp, and 0 where none is
    recorded (a recorded 0 is falsy and replaced by 0, the same number). *)
Definition rateLimit (ip : string) (windowMs : Z) (now : Z) (recent : gmap string Z)
  : bool * gmap string Z :=
  let last := default 0 (recent !! ip) in
  if now - last <? windowMs then (false, recent)
  else (true, <[ip := now]> recent).

Definition rateLimit_default_window : Z := 2500.

(** ** Requests, responses and the platform *)

(** The request as the handler reads it: [req.method], the two headers
    ([headers.get] gives [null], here [None], for an absent header) and the
    body text that [req.json()] parses. *)
Record Request : Type := {
  method : string;
  x_nf_client_connection_ip : option string;
  x_forwarded_for : option string;
  body : string
}.

(** [process.env]. *)
Record Env : Type := { OPENAI_API_KEY : option string }.

(** The outbound call: the URL, the two headers and the fields of the JSON
    body.  The temperature 0.65 is kept in hundredths. *)
Record chat_request : Type := {
  url : string;
  authorization : string;
  content_type : string;
  model : string;
  messages : list (string * string);
  temperature_percent : Z;
  max_tokens : Z
}.

(** What [fetch] gives back: a rejection, or a response with its [ok] flag
    and its body text ([None] when reading the body rejects). *)
Inductive fetch_result : Type :=
  | NetworkError
  | HttpResponse (ok : bool) (text : option string).

(** The body of a response is a plain text or [JSON.stringify] of a value. *)
Inductive response_body : Type :=
  | TextBody (s : string)
  | JsonBody (v : value).

Record Response : Type := {
  status : Z;
  resp_body : response_body;
  resp_content_type : option string
}.

Definition text_response (s : string) (code : Z) : Response :=
  {| status := code; resp_body := TextBody s; resp_content_type := None |}.

Definition json_response (v : value) : Response :=
  {| status := 200; resp_body := JsonBody v;
     resp_content_type := Some "application/json" |}.

(** ** Property access *)

(** [v.k] for a name [k] that no built-in prototype defines (ingredients,
    title, intro, steps, optional, note): a [TypeError] on [undefined] and
    [null], the own property of an object, [undefined] otherwise.  The same
    holds for the destructuring [const { k } = v]. *)
Definition get_member (v : value) (k : string) : option value :=
  match v with
  | VUndefined | VNull => None
  | VObj props => Some (default VUndefined (own_property k props))
  | _ => Some VUndefined
  end.

(** [v?.k], for such a name (choices, message, content). *)
Definition opt_member (v : value) (k : string) : value :=
  default VUndefined (get_member v k).

(** [v?.[0]]: the first element of an array, the first code unit of a
    string, the own property named 0 of an object. *)
Definition opt_index0 (v : value) : value :=
  match v with
  | VArr (x :: _) => x
  | VStr (String c _) => VStr (String c "")
  | VObj props => default VUndefined (own_property "0" props)
  | _ => VUndefined
  end.

(** [a || b] on a header or environment string that may be [null]. *)
Definition or_string (a : option string) (b : string) : string :=
  match a with
  | Some s => if is_empty s then b else s
  | None => b
  end.

Definition client_ip (req : Request) : string :=
  or_string (x_nf_client_connection_ip req)
    (or_string (x_forwarded_for req) "unknown").

(** ** The prompt *)

Definition nl : string := String (ascii_of_nat 10) "".
Definition dq : string := String (ascii_of_nat 34) "".
Definition quoted (s : string) : string := dq +:+ s +:+ dq.

Fixpoint lines (l : list string) : string :=
  match l with
  | [] => ""
  | s :: rest => s +:+ nl +:+ lines rest
  end.

Definition system : string := trim (nl +:+ lines [
  "You are Cooking Compass: a calm, practical cooking coach.";
  "You create ONE coherent meal direction from a messy ingredient list.";
  "";
  "STRICT INGREDIENT RULES";
  "1) Core ingredients: you may use ONLY what the user typed.";
  "2) Allowed universal staples (always allowed): oil, butter, salt, black pepper, sugar, vinegar, water.";
  "3) Optional pantry items (ONLY as " +:+ quoted "Optional: ... if you have it"
    +:+ "): onion, garlic, chili flakes, paprika powder, cumin, dried oregano, dried thyme, bay leaf.";
  "   - Never assume these exist. Never include them as required ingredients.";
  "4) Do not introduce any other ingredients, sauces, herbs, spices, dairy, broths, etc.";
  "";
  "OUTPUT GOAL";
  "- Prefer recognizable/traditional-ish structures: stir-fry, omelet/frittata, traybake/roast, simple soup, basic pasta-style, rice bowl, salad.";
  "- If the user's ingredients strongly suggest a known dish direction, lean into that.";
  "- Do NOT force every ingredient into the dish; select what supports the idea.";
  "";
  "CLARITY RULES (NO VAGUE STEPS)";
  "- No exact grams/ml/minutes.";
  "- Each step must be actionable and specific.";
  "- Use sensory cues: " +:+ quoted "until browned" +:+ ", " +:+ quoted "until fragrant"
    +:+ ", " +:+ quoted "until it smells nutty" +:+ ", "
    +:+ quoted "until it tastes balanced" +:+ ".";
  "- If an ingredient needs prep (cut small, pat dry), say it.";
  "";
  "FORMAT";
  "Return VALID JSON only (no markdown), with keys:";
  "{";
  "  " +:+ quoted "title" +:+ ": string,";
  "  " +:+ quoted "intro" +:+ ": string (1-2 sentences),";
  "  " +:+ quoted "steps" +:+ ": string[] (5-8 bullets),";
  "  " +:+ quoted "optional" +:+ ": string[] (2-5 bullets, each must begin with "
    +:+ quoted "Optional:" +:+ "),";
  "  " +:+ quoted "note" +:+ ": string (1 sentence, helpful)";
  "}"
]).

Definition user (userInput : string) : string := trim (nl +:+ lines [
  "User ingredients/notes:";
  userInput;
  "";
  "Return JSON only."
]).

Definition build_request (apiKey userInput : string) : chat_request := {|
  url := "https://api.openai.com/v1/chat/completions";
  authorization := "Bearer " +:+ apiKey;
  content_type := "application/json";
  model := "gpt-4.1-mini";
  messages := [("system", system); ("user", user userInput)];
  temperature_percent := 65;
  max_tokens := 650
|}.

(** ** Reading the provider's answer *)

(** [json?.choices?.[0]?.message?.content?.trim() || ""]: a missing link gives
    the empty text, a string content is trimmed, and a content that is
    neither missing nor a string has no callable [trim]: the call throws. *)
Definition extract_content (json : value) : option string :=
  match opt_member (opt_member (opt_index0 (opt_member json "choices")) "message") "content" with
  | VUndefined | VNull => Some ""
  | VStr s => Some (trim s)
  | _ => None
  end.

(** [text.match(/\{[\s\S]*\}$/)]: the match starts at the first opening brace
    of the text and runs to the end of the text, which has to be a closing
    brace behind it. *)
Fixpoint from_first_lbrace (s : string) : option string :=
  match s with
  | EmptyString => None
  | String c s' => if Ascii.eqb c "{" then Some s else from_first_lbrace s'
  end.

Fixpoint ends_with_rbrace (s : string) : bool :=
  match s with
  | EmptyString => false
  | String c EmptyString => Ascii.eqb c "}"
  | String _ s' => ends_with_rbrace s'
  end.

Definition match_trailing_object (text : string) : option string :=
  match from_first_lbrace text with
  | Some (String c rest) => if ends_with_rbrace rest then Some (String c rest) else None
  | _ => None
  end.

(** The entries of [optional]: [s.startsWith("Optional:") ? s : `Optional: ${s}`]. *)
Definition add_optional_prefix (s : string) : string :=
  if startsWith s "Optional:" then s else "Optional: " +:+ s.

(** [Array.isArray(a) ? a.slice(0, n).map(s => safeString(s, 220)) : []]. *)
Definition capped_entries (a : value) (n : nat) : option (list string) :=
  match a with
  | VArr elems => mapM (λ s, safeString s 220) (take n elems)
  | _ => Some []
  end.

(** The object [out], built field by field in the order of the source. *)
Definition sanitize_output (parsed : value) : option value :=
  title_v ← get_member parsed "title";
  title ← safeString title_v 140;
  intro_v ← get_member parsed "intro";
  intro ← safeString intro_v 420;
  steps_v ← get_member parsed "steps";
  steps ← capped_entries steps_v 8;
  optional_v ← get_member parsed "optional";
  optional ← capped_entries optional_v 5;
  note_v ← get_member parsed "note";
  note ← safeString note_v 260;
  Some (VObj [("title", VStr title);
              ("intro", VStr intro);
              ("steps", VArr (VStr <$> steps));
              ("optional", VArr (VStr <$> (add_optional_prefix <$> optional)));
              ("note", VStr note)]).

(** ** The handler *)

Section Handler.

(** [JSON.parse]: [None] is a [SyntaxError]. *)
Variable JSON_parse : string → option value.

(** [try { parsed = JSON.parse(text) } catch { ... }]: the direct parse,
    then the parse of the matched tail; no match is the error
    [Model did not return JSON.]. *)
Definition parse_content (text : string) : option value :=
  match JSON_parse text with
  | Some v => Some v
  | None =>
      match match_trailing_object text with
      | Some m => JSON_parse m
      | None => None
      end
  end.

(** From the trimmed content to the 200 response. *)
Definition respond_content (text : string) : option Response :=
  parsed ← parse_content text;
  out ← sanitize_output parsed;
  Some (json_response out).

(** From the provider's response on. *)
Definition after_fetch (r : fetch_result) : option Response :=
  match r with
  | NetworkError => None
  | HttpResponse false text =>
      Some (text_response (or_string text "OpenAI request failed") 502)
  | HttpResponse true text =>
      json ← text ≫= JSON_parse;
      content ← extract_content json;
      respond_content content
  end.

(** The body of the [try] block behind the rate limit, with the outbound
    calls it makes. *)
Definition process (req : Request) (env : Env) (fetch : chat_request → fetch_result)
  : option Response * list chat_request :=
  match get_member (default (VObj []) (JSON_parse (body req))) "ingredients" with
  | None => (None, [])
  | Some ingredients =>
      match safeString ingredients 700 with
      | None => (None, [])
      | Some s =>
          let userInput := trim s in
          if is_empty userInput then (Some (text_response "Missing ingredients" 400), [])
          else
            match OPENAI_API_KEY env with
            | Some (String c k) =>
                let call := build_request (String c k) userInput in
                (after_fetch (fetch call), [call])
            | _ => (Some (text_response "Server missing OPENAI_API_KEY" 500), [])
            end
      end
  end.

(** One invocation: the response, the map [recent] afterwards and the
    outbound calls made.  [now] is the value of [Date.now()]. *)
Definition handler (req : Request) (env : Env) (now : Z)
    (fetch : chat_request → fetch_result) (recent : gmap string Z)
  : Response * gmap string Z * list chat_request :=
  if negb (String.eqb (method req) "POST") then
    (text_response "Method Not Allowed" 405, recent, [])
  else
    let '(allowed, recent') :=
      rateLimit (client_ip req) rateLimit_default_window now recent in
    if negb allowed then
      (text_response "Too many requests. Please slow down." 429, recent', [])
    else
      let '(r, calls) := process req env fetch in
      (default (text_response "Server error" 500) r, recent', calls).

End Handler.

End Program.

(** ** A JSON reader for the examples

    The theorems below hold for every function in the place of [JSON.parse].
    The examples need one to run: this reader covers objects, arrays, strings
    with the two-character escapes, the literals [true], [false] and [null],
    and integer literals of at most 15 digits (whose decimal rendering is the
    literal itself).  It rejects every text outside this fragment, also JSON
    texts that [JSON.parse] accepts (four-digit escapes, fractions,
    exponents); on a text that is not JSON both reject, and on a text of the
    fragment both give the same value. *)
Module RefJSON.

Definition is_ws (c : ascii) : bool :=
  let n := N_of_ascii c in
  ((n =? 32) || (n =? 9) || (n =? 10) || (n =? 13))%N.

Fixpoint skip_ws (s : string) : string :=
  match s with
  | String c s' => if is_ws c then skip_ws s' else s
  | EmptyString => ""
  end.

Definition is_digit (c : ascii) : bool :=
  let n := N_of_ascii c in ((48 <=? n) && (n <=? 57))%N.

(** The two-character escapes; the four-digit escape is left out. *)
Definition unescape (e : ascii) : option ascii :=
  match e with
  | "034" | "\" | "/" => Some e
  | "b" => Some "008"
  | "f" => Some "012"
  | "n" => Some "010"
  | "r" => Some "013"
  | "t" => Some "009"
  | _ => None
  end%char.

(** The characters of a string literal up to its closing quote. *)
Fixpoint read_chars (s : string) : option (string * string) :=
  match s with
  | EmptyString => None
  | String c s' =>
      let n := N_of_ascii c in
      if (n =? 34)%N then Some ("", s')
      else if (n <? 32)%N then None
      else if (n =? 92)%N then
        match s' with
        | String e s'' =>
            match unescape e, read_chars s'' with
            | Some c', Some (str, rest) => Some (String c' str, rest)
            | _, _ => None
            end
        | EmptyString => None
        end
      else match read_chars s' with
           | Some (str, rest) => Some (String c str, rest)
           | None => None
           end
  end.

Fixpoint read_digits (s : string) : string * string :=
  match s with
  | String c s' =>
      if is_digit c then let '(d, rest) := read_digits s' in (String c d, rest)
      else ("", s)
  | EmptyString => ("", "")
  end.

(** An optional minus sign, then 0 or a nonzero digit and more digits; no
    fraction or exponent may follow. *)
Definition read_number (s : string) : option (value * string) :=
  let '(neg, s1) := match s with
                    | String "-" s' => (true, s')
                    | _ => (false, s)
                    end in
  let '(digits, rest) := read_digits s1 in
  let follow_ok := match rest with
                   | String "." _ | String "e" _ | String "E" _ => false
                   | _ => true
                   end in
  match digits with
  | EmptyString => None
  | String "0" EmptyString =>
      if follow_ok then Some (VNum NumZero, rest) else None
  | String "0" _ => None
  | _ =>
      if follow_ok && (String.length digits <=? 15)%nat
      then Some (VNum (NumOther (if neg then String "-" digits else digits)), rest)
      else None
  end.

Fixpoint strip (lit s : string) : option string :=
  match lit, s with
  | EmptyString, _ => Some s
  | String a lit', String b s' => if Ascii.eqb a b then strip lit' s' else None
  | _, _ => None
  end.

(** [obj[k] = v]: a repeated name keeps its place and takes the new value. *)
Fixpoint set_property (k : string) (v : value) (props : list (string * value))
  : list (string * value) :=
  match props with
  | [] => [(k, v)]
  | (k', v') :: rest =>
      if String.eqb k k' then (k, v) :: rest else (k', v') :: set_property k v rest
  end.

Inductive mode : Type :=
  | MValue
  | MElements (acc : list value)
  | MMembers (acc : list (string * value)).

Fixpoint read (fuel : nat) (m : mode) (s : string) : option (value * string) :=
  match fuel with
  | O => None
  | S fuel' =>
      match m with
      | MValue =>
          match skip_ws s with
          | String "{" s1 =>
              match skip_ws s1 with
              | String "}" s2 => Some (VObj [], s2)
              | _ => read fuel' (MMembers []) s1
              end
          | String "[" s1 =>
              match skip_ws s1 with
              | String "]" s2 => Some (VArr [], s2)
              | _ => read fuel' (MElements []) s1
              end
          | String "034" s1 =>
              match read_chars s1 with
              | Some (str, rest) => Some (VStr str, rest)
              | None => None
              end
          | String "t" _ as s0 => (λ r, (VBool true, r)) <$> strip "true" s0
          | String "f" _ as s0 => (λ r, (VBool false, r)) <$> strip "false" s0
          | String "n" _ as s0 => (λ r, (VNull, r)) <$> strip "null" s0
          | s0 => read_number s0
          end
      | MElements acc =>
          match read fuel' MValue s with
          | Some (v, s1) =>
              match skip_ws s1 with
              | String "," s2 => read fuel' (MElements (acc ++ [v])) s2
              | String "]" s2 => Some (VArr (acc ++ [v]), s2)
              | _ => None
              end
          | None => None
          end
      | MMembers acc =>
          match skip_ws s with
          | String "034" s1 =>
              match read_chars s1 with
              | Some (k, s2) =>
                  match skip_ws s2 with
                  | String ":" s3 =>
                      match read fuel' MValue s3 with
                      | Some (v, s4) =>
                          match skip_ws s4 with
                          | String "," s5 => read fuel' (MMembers (set_property k v acc)) s5
                          | String "}" s5 => Some (VObj (set_property k v acc), s5)
                          | _ => None
                          end
                      | None => None
                      end
                  | _ => None
                  end
              | None => None
              end
          | _ => None
          end
      end
  end.

Definition parse (s : string) : option value :=
  match read (2 * String.length s + 2) MValue s with
  | Some (v, rest) => if is_empty (skip_ws rest) then Some v else None
  | None => None
  end.

End RefJSON.

(** ** Notions used in the statements *)

(** A sequence of calls [rateLimit(ip, windowMs)], each with the clock
    reading it sees, threaded through the map. *)
Fixpoint rateLimit_run (calls : list (string * Z * Z)) (recent : gmap string Z)
  : gmap string Z :=
  match calls with
  | [] => recent
  | (ip, windowMs, now) :: rest =>
      rateLimit_run rest (rateLimit ip windowMs now recent).2
  end.

(** The values that are neither arrays nor objects: their string conversion
    is defined on every engine. *)
Definition scalar (v : value) : bool :=
  match v with
  | VArr _ | VObj _ => false
  | _ => true
  end.

(** An object whose members are not nested: title, intro and note are
    neither arrays nor objects, and the entries of steps and optional, where
    these are arrays, are neither. *)
Definition flat_members (props : list (string * value)) : Prop :=
  Forall (λ k, scalar (default VUndefined (own_property k props)) = true)
    ["title"; "intro"; "note"] ∧
  Forall (λ k, ∀ elems, own_property k props = Some (VArr elems) →
                        Forall (λ x, scalar x = true) elems)
    ["steps"; "optional"].

(** A string that is empty or begins with a character that is no white
    space. *)
Definition no_leading_space (s : string) : bool :=
  match s with
  | EmptyString => true
  | String c _ => negb (is_js_space c)
  end.

(** A value inside [n] arrays of one element: [[[v]]] for [n = 2]. *)
Fixpoint nested (n : nat) (v : value) : value :=
  match n with
  | O => v
  | S n' => VArr [nested n' v]
  end.

(** [n] copies of a character, for inputs of a given length. *)
Fixpoint str_repeat (n : nat) (c : ascii) : string :=
  match n with
  | O => ""
  | S n' => String c (str_repeat n' c)
  end.

Section Content.

Context {engine : Engine}.
Variable JSON_parse : string → option value.

(** The request carries ingredients, the key is configured and the
    provider answers with a success whose first choice has the trimmed
    content [text]: the handler reaches the parsing of [text]. *)
Definition provider_content (req : Request) (env : Env)
    (fetch : chat_request → fetch_result) (text : string) : Prop :=
  ∃ ingredients s apiKey answer json,
    get_member (default (VObj []) (JSON_parse (body req))) "ingredients" = Some ingredients ∧
    safeString ingredients 700 = Some s ∧
    is_empty (trim s) = false ∧
    OPENAI_API_KEY env = Some apiKey ∧
    is_empty apiKey = false ∧
    fetch (build_request apiKey (trim s)) = HttpResponse true (Some answer) ∧
    JSON_parse answer = Some json ∧
    extract_content json = Some text.

End Content.

(** The shape the specification gives to a recipe suggestion [out] built
    from [parsed]: the five members in order, their bounds, the prefix of the
    optional entries, and the defaults of members that are missing or, for
    the two sequences, not arrays.  An optional entry is capped at 220
    characters before the ten characters of the prefix are put in front. *)
Definition recipe_suggestion (parsed out : value) : Prop :=
  ∃ title intro steps optional note,
    out = VObj [("title", VStr title);
                ("intro", VStr intro);
                ("steps", VArr (VStr <$> steps));
                ("optional", VArr (VStr <$> optional));
                ("note", VStr note)] ∧
    (String.length title ≤ 140)%nat ∧
    (String.length intro ≤ 420)%nat ∧
    (String.length note ≤ 260)%nat ∧
    (length steps ≤ 8)%nat ∧
    Forall (λ s, (String.length s ≤ 220)%nat) steps ∧
    (length optional ≤ 5)%nat ∧
    Forall (λ s, (String.length s ≤ 230)%nat ∧ startsWith s "Optional:" = true) optional ∧
    (get_member parsed "title" = Some VUndefined → title = "") ∧
    (get_member parsed "intro" = Some VUndefined → intro = "") ∧
    (get_member parsed "note" = Some VUndefined → note = "") ∧
    (∀ v, get_member parsed "steps" = Some v → (∀ elems, v ≠ VArr elems) → steps = []) ∧
    (∀ v, get_member parsed "optional" = Some v → (∀ elems, v ≠ VArr elems) →
          optional = []).

(** The object with every member at its default. *)
Definition empty_suggestion : value :=
  VObj [("title", VStr ""); ("intro", VStr ""); ("steps", VArr []);
        ("optional", VArr []); ("note", VStr "")].

(** ** Example requests and provider answers *)

Module Fixture.

(** A string as a JSON string literal. *)
Fixpoint escape (s : string) : string :=
  match s with
  | EmptyString => ""
  | String c s' =>
      if ((N_of_ascii c =? 34) || (N_of_ascii c =? 92))%N
      then String "\" (String c (escape s'))
      else String c (escape s')
  end.

Definition json_string (s : string) : string := quoted (escape s).

(** A POST from one client address with the given body. *)
Definition post (b : string) : Request := {|
  method := "POST";
  x_nf_client_connection_ip := Some "203.0.113.7";
  x_forwarded_for := None;
  body := b
|}.

Definition ingredients_body : string :=
  "{" +:+ quoted "ingredients" +:+ ":" +:+ json_string "eggs, spinach, leftover rice" +:+ "}".

Definition env : Env := {| OPENAI_API_KEY := Some "sk-test" |}.

(** A provider that answers every call with a success whose first choice
    has the given content. *)
Definition provider (content : string) : chat_request → fetch_result :=
  λ _, HttpResponse true (Some (
    "{" +:+ quoted "choices" +:+ ":[{" +:+ quoted "message" +:+ ":{"
    +:+ quoted "role" +:+ ":" +:+ quoted "assistant" +:+ ","
    +:+ quoted "content" +:+ ":" +:+ json_string content +:+ "}}]}")).

Definition now : Z := 1700000000000.

(** The scenario of the specification. *)
Definition recipe : string :=
  "{" +:+ quoted "title" +:+ ":" +:+ quoted "Spinach Rice Skillet" +:+ ","
  +:+ quoted "intro" +:+ ":" +:+ quoted "A quick one-pan dish." +:+ ","
  +:+ quoted "steps" +:+ ":[" +:+ quoted "Heat oil in a pan until shimmering" +:+ ","
  +:+ quoted "Add rice and spinach, stir until spinach wilts" +:+ "],"
  +:+ quoted "optional" +:+ ":[" +:+ quoted "garlic if you have it" +:+ "],"
  +:+ quoted "note" +:+ ":" +:+ quoted "Balance with salt to taste." +:+ "}".

(** An object whose one optional entry has 211 characters and no prefix. *)
Definition long_optional : string :=
  "{" +:+ quoted "optional" +:+ ":[" +:+ quoted (str_repeat 211 "a") +:+ "]}".

(** An object behind a sentence that has braces of its own. *)
Definition braces_before : string := "Use {ingredients} here: ".
Definition titled : string := "{" +:+ quoted "title" +:+ ":" +:+ quoted "Rice" +:+ "}".

End Fixture.

(** The examples run on an engine that follows 1000 nested arrays. *)
#[global] Instance example_engine : Engine := {| stack_limit := 1000 |}.

(** ** Proof tools *)

#[local] Instance VStr_inj : Inj (=) (=) VStr.
Proof. intros a b [= ->]. reflexivity. Qed.

(** Closed goals on the example requests are settled by evaluation. *)
Ltac by_computation := vm_compute; first [reflexivity | discriminate].

Ltac content_by_computation :=
  do 5 eexists; repeat split; by_computation.

(** ** The definitions on small inputs *)

Example slice0_cases :
  slice0 "abcdef" 3 = "abc" ∧ slice0 "abcdef" 10 = "abcdef" ∧
  slice0 "abcdef" 0 = "" ∧ slice0 "abcdef" (-2) = "abcd".
Proof. repeat split. Qed.

Example trim_cases :
  trim "  eggs, rice  " = "eggs, rice" ∧ trim (nl +:+ " " +:+ nl) = "" ∧ trim "" = "".
Proof. repeat split. Qed.

Example ToString_cases :
  ToString (VArr [VNum NumZero; VNull; VStr "x"; VArr []; VBool true]) = Some "0,,x,,true" ∧
  ToString (VObj [("a", VNull)]) = Some "[object Object]" ∧
  ToString (VArr [VObj [("toString", VNull)]]) = None.
Proof. repeat split. Qed.

Example ToString_depth_cases :
  ToString (engine := {| stack_limit := 2 |}) (VArr [VArr [VStr "x"]; VStr "y"]) = Some "x,y" ∧
  ToString (engine := {| stack_limit := 2 |}) (VArr [VArr [VArr [VStr "x"]]]) = None ∧
  safeString (engine := {| stack_limit := 2 |}) (VArr [VArr [VArr [VStr "x"]]]) 800 = None.
Proof. repeat split. Qed.

Example safeString_cases :
  safeString VUndefined 800 = Some "" ∧
  safeString (VStr "spinach") 4 = Some "spin" ∧
  safeString (VNum (NumOther "12.5")) 800 = Some "12.5" ∧
  safeString (VArr []) 800 = Some "".
Proof. repeat split. Qed.

Example match_trailing_object_cases :
  match_trailing_object "Here: {}" = Some "{}" ∧
  match_trailing_object "a{b}c}" = Some "{b}c}" ∧
  match_trailing_object "{} done" = None ∧
  match_trailing_object "}{" = None ∧
  match_trailing_object "no braces" = None.
Proof. repeat split. Qed.

Example extract_content_cases :
  extract_content
    (VObj [("choices", VArr [VObj [("message", VObj [("content", VStr " {} ")])]])])
  = Some "{}" ∧
  extract_content (VObj [("choices", VArr [])]) = Some "" ∧
  extract_content VNull = Some "" ∧
  extract_content
    (VObj [("choices", VArr [VObj [("message", VObj [("content", VNum NumZero)])]])])
  = None.
Proof. repeat split. Qed.

Example rateLimit_cases_at_start :
  rateLimit "a" 2500 1700000000000 ∅ = (true, {["a" := 1700000000000]}) ∧
  rateLimit "a" 2500 1700000002499 {["a" := 1700000000000]}
  = (false, {["a" := 1700000000000]}) ∧
  rateLimit "a" 2500 1700000002500 {["a" := 1700000000000]}
  = (true, {["a" := 1700000002500]}) ∧
  rateLimit "b" 2500 1700000000001 {["a" := 1700000000000]}
  = (true, {["b" := 1700000000001; "a" := 1700000000000]}).
Proof. repeat split; by_computation. Qed.

Example RefJSON_cases :
  RefJSON.parse " [1, true, null] "
  = Some (VArr [VNum (NumOther "1"); VBool true; VNull]) ∧
  RefJSON.parse Fixture.titled = Some (VObj [("title", VStr "Rice")]) ∧
  RefJSON.parse "{} trailing" = None ∧
  RefJSON.parse "" = None.
Proof. repeat split. Qed.

(** ** Properties of the string operations *)

Lemma app_empty (b : string) : "" +:+ b = b.
Proof. reflexivity. Qed.

Lemma app_String (c : ascii) (a b : string) : String c a +:+ b = String c (a +:+ b).
Proof. reflexivity. Qed.

Lemma prefix_empty (s : string) : String.prefix "" s = true.
Proof. destruct s; reflexivity. Qed.

Lemma length_str_take (n : nat) (s : string) :
  String.length (str_take n s) = Nat.min n (String.length s).
Proof.
  revert s. induction n as [|n IH]; intros [|c s]; simpl; auto.
Qed.

Lemma str_take_all (n : nat) (s : string) :
  (String.length s ≤ n)%nat → str_take n s = s.
Proof.
  revert s. induction n as [|n IH]; intros [|c s]; simpl; intros H;
    try reflexivity; try lia.
  f_equal. apply IH. lia.
Qed.

Lemma slice0_nonneg (s : string) (max : Z) :
  0 ≤ max → slice0 s max = str_take (Z.to_nat max) s.
Proof.
  intros Hmax. unfold slice0.
  destruct (Z.ltb_spec max 0) as [?|_]; [lia|].
  destruct (Z.le_gt_cases max (Z.of_nat (String.length s))) as [Hle|Hgt].
  - now rewrite Z.min_l.
  - rewrite Z.min_r by lia. rewrite Nat2Z.id.
    rewrite !str_take_all; auto; lia.
Qed.

Lemma slice0_length (s : string) (max : Z) :
  0 ≤ max → Z.of_nat (String.length (slice0 s max)) ≤ max.
Proof.
  intros Hmax. rewrite slice0_nonneg, length_str_take by assumption. lia.
Qed.

Lemma slice0_short (s : string) (max : Z) :
  Z.of_nat (String.length s) ≤ max → slice0 s max = s.
Proof.
  intros H. rewrite slice0_nonneg by lia. apply str_take_all. lia.
Qed.

Lemma str_take_prefix (n : nat) (s : string) : String.prefix (str_take n s) s = true.
Proof.
  revert s. induction n as [|n IH]; intros [|c s]; simpl; auto.
  destruct (ascii_dec c c); [apply IH|congruence].
Qed.

Lemma slice0_prefix (s : string) (max : Z) : String.prefix (slice0 s max) s = true.
Proof. apply str_take_prefix. Qed.

Lemma prefix_str_take (p : string) (n : nat) (s : string) :
  (String.length p ≤ n)%nat → String.prefix p (str_take n s) = String.prefix p s.
Proof.
  revert n s. induction p as [|a p IH]; intros n s H.
  - now rewrite !prefix_empty.
  - simpl in H. destruct n as [|n]; [lia|]. destruct s as [|c s]; simpl; [reflexivity|].
    destruct (ascii_dec a c); [apply IH; lia|reflexivity].
Qed.

Lemma startsWith_slice0 (s p : string) (max : Z) :
  Z.of_nat (String.length p) ≤ max →
  startsWith (slice0 s max) p = startsWith s p.
Proof.
  intros H. unfold startsWith. rewrite slice0_nonneg by lia.
  apply prefix_str_take. lia.
Qed.

Lemma prefix_app (p s : string) : String.prefix p (p +:+ s) = true.
Proof.
  induction p as [|a p IH].
  - apply prefix_empty.
  - rewrite app_String. simpl. destruct (ascii_dec a a); [exact IH|congruence].
Qed.

Lemma length_app (a b : string) :
  String.length (a +:+ b) = (String.length a + String.length b)%nat.
Proof.
  induction a as [|c a IH]; [reflexivity|].
  rewrite app_String. simpl. now rewrite IH.
Qed.

(** ** Properties of the sanitizer *)

Section SanitizerFacts.

Context {engine : Engine}.

Lemma slice0_empty (max : Z) : slice0 "" max = "".
Proof. unfold slice0. now destruct (Z.to_nat _). Qed.

Lemma safeString_falsy (x : value) (max : Z) :
  ToBoolean x = false → safeString x max = Some "".
Proof.
  intros H. unfold safeString, ToString. rewrite H. simpl. now rewrite slice0_empty.
Qed.

Lemma safeString_truthy (x : value) (max : Z) :
  ToBoolean x = true → safeString x max = (λ s, slice0 s max) <$> ToString x.
Proof. intros H. unfold safeString. rewrite H. now destruct (ToString x). Qed.

Lemma safeString_str (s : string) (max : Z) :
  safeString (VStr s) max = Some (slice0 s max).
Proof. destruct s; [now rewrite safeString_falsy, slice0_empty|reflexivity]. Qed.

Lemma safeString_undefined (max : Z) : safeString VUndefined max = Some "".
Proof. now apply safeString_falsy. Qed.

Lemma safeString_length (x : value) (max : Z) (r : string) :
  safeString x max = Some r → 0 ≤ max → Z.of_nat (String.length r) ≤ max.
Proof.
  unfold safeString. destruct (ToString _); intros [= <-] Hmax.
  now apply slice0_length.
Qed.

Lemma ToString_scalar (x : value) : scalar x = true → is_Some (ToString x).
Proof. unfold ToString. destruct x; simpl; intros; try discriminate; eauto. Qed.

Lemma safeString_scalar (x : value) (max : Z) :
  scalar x = true → is_Some (safeString x max).
Proof.
  intros H. unfold safeString. destruct (ToBoolean x).
  - destruct (ToString_scalar x H) as [s ->]. eauto.
  - simpl. eauto.
Qed.

Lemma safeString_none (x : value) (max : Z) :
  safeString x max = None ↔ ToBoolean x = true ∧ ToString x = None.
Proof.
  unfold safeString. destruct (ToBoolean x).
  - destruct (ToString x); split; intros H; try discriminate; auto.
    now destruct H.
  - simpl. split; [discriminate|intros [? _]; discriminate].
Qed.

(** C5 (amended).  [safeString(x, max)] is [String(x).slice(0, max)] for a
    truthy [x] and the empty string for every falsy [x], which are
    [undefined] and [null] and also [false], [0], [NaN] and the empty string.
    For [max >= 0] the result is the string conversion cut to its first [max]
    characters, at most 800 with the default.  It returns a string for every
    value that is neither an array nor an object, and fails for an array or
    an object exactly when the string conversion of the value throws. *)
Theorem safeString_spec (x : value) (max : Z) :
  (ToBoolean x = false → safeString x max = Some "") ∧
  (ToBoolean x = true → safeString x max = (λ s, slice0 s max) <$> ToString x) ∧
  (∀ s, 0 ≤ max → slice0 s max = str_take (Z.to_nat max) s) ∧
  (∀ r, safeString x max = Some r → 0 ≤ max → Z.of_nat (String.length r) ≤ max) ∧
  (∀ r, safeString x safeString_default_max = Some r → (String.length r ≤ 800)%nat) ∧
  (scalar x = true → is_Some (safeString x max)) ∧
  (safeString x max = None ↔ ToBoolean x = true ∧ ToString x = None).
Proof.
  split; [apply safeString_falsy|].
  split; [apply safeString_truthy|].
  split; [intros s; apply slice0_nonneg|].
  split; [intros r; apply safeString_length|].
  split; [intros r Hr; apply safeString_length in Hr; unfold safeString_default_max in *; lia|].
  split; [apply safeString_scalar|apply safeString_none].
Qed.

End SanitizerFacts.

Lemma safeString_spec_witness :
  safeString (VBool false) 800 = Some "" ∧
  safeString (VArr [VNum (NumOther "12"); VNull; VStr "rice"]) 5 = Some "12,,r" ∧
  Z.of_nat (String.length "12,,r") ≤ 5 ∧
  is_Some (safeString (VNum (NumOther "12.5")) 800).
Proof.
  pose proof (safeString_spec (VBool false) 800) as (Hf & _).
  pose proof (safeString_spec (VArr [VNum (NumOther "12"); VNull; VStr "rice"]) 5)
    as (_ & Ht & _ & Hlen & _).
  pose proof (safeString_spec (VNum (NumOther "12.5")) 800)
    as (_ & _ & _ & _ & _ & Htot & _).
  split; [apply Hf; reflexivity|].
  split; [rewrite Ht by reflexivity; reflexivity|].
  split; [apply (Hlen "12,,r"); [rewrite Ht by reflexivity; reflexivity|lia]|].
  apply Htot. reflexivity.
Defined.

(** C5 (as stated).  [false] is neither absent, [null] nor [undefined], its
    string representation is the text false, and the sanitizer returns the
    empty string; the same holds for the number 0. *)
Lemma safeString_false_is_empty :
  ToString (VBool false) = Some "false" ∧
  safeString (VBool false) safeString_default_max = Some "" ∧
  ToString (VNum NumZero) = Some "0" ∧
  safeString (VNum NumZero) safeString_default_max = Some "".
Proof. repeat split. Qed.

(** The conversion throws on an object with an own property named toString,
    and the sanitizer with it. *)
Lemma safeString_throws :
  safeString (VObj [("toString", VNum (NumOther "1"))]) safeString_default_max = None.
Proof. reflexivity. Qed.

(** ** Properties of the output object *)

Section OutputFacts.

Context {engine : Engine}.

Lemma add_optional_prefix_starts (s : string) :
  startsWith (add_optional_prefix s) "Optional:" = true.
Proof.
  unfold add_optional_prefix. destruct (startsWith s "Optional:") eqn:E; [exact E|].
  reflexivity.
Qed.

Lemma add_optional_prefix_fixed (s : string) :
  startsWith s "Optional:" = true → add_optional_prefix s = s.
Proof. intros H. unfold add_optional_prefix. now rewrite H. Qed.

Lemma add_optional_prefix_idempotent (s : string) :
  add_optional_prefix (add_optional_prefix s) = add_optional_prefix s.
Proof. apply add_optional_prefix_fixed, add_optional_prefix_starts. Qed.

Lemma add_optional_prefix_length (s : string) :
  (String.length (add_optional_prefix s) ≤ String.length s + 10)%nat.
Proof.
  unfold add_optional_prefix. destruct (startsWith s "Optional:"); [lia|].
  rewrite length_app. simpl. lia.
Qed.

Lemma capped_entries_bounds (a : value) (n : nat) (l : list string) :
  capped_entries a n = Some l →
  (length l ≤ n)%nat ∧ Forall (λ s, (String.length s ≤ 220)%nat) l.
Proof.
  destruct a; simpl; try (intros [= <-]; split; [simpl; lia|constructor]).
  intros H. split.
  - apply length_mapM in H. rewrite <- H, length_take. lia.
  - apply mapM_Some_1 in H. induction H as [|x y xs ys Hxy _ IH]; constructor; auto.
    apply safeString_length in Hxy; lia.
Qed.

Lemma capped_entries_not_array (a : value) (n : nat) :
  (∀ elems, a ≠ VArr elems) → capped_entries a n = Some [].
Proof. intros H. destruct a; try reflexivity. now destruct (H elems). Qed.

Lemma capped_entries_strings (l : list string) (n : nat) :
  capped_entries (VArr (VStr <$> l)) n = Some ((λ s, slice0 s 220) <$> take n l).
Proof.
  simpl. apply mapM_Some_2. rewrite <- fmap_take.
  induction (take n l) as [|s k IH]; simpl; constructor; auto.
  apply safeString_str.
Qed.

Lemma bind_some {A B : Type} (x : A) (f : A → option B) : Some x ≫= f = f x.
Proof. reflexivity. Qed.

Lemma capped_entries_flat (a : value) (n : nat) :
  (∀ elems, a = VArr elems → Forall (λ x, scalar x = true) elems) →
  is_Some (capped_entries a n).
Proof.
  intros H. destruct a; simpl; eauto.
  apply mapM_is_Some_2. apply Forall_take.
  eapply Forall_impl; [exact (H elems eq_refl)|].
  intros x Hx. now apply safeString_scalar.
Qed.

Lemma sanitize_output_flat (props : list (string * value)) :
  flat_members props → is_Some (sanitize_output (VObj props)).
Proof.
  intros [Hs Ha]. unfold sanitize_output, get_member.
  apply Forall_cons_1 in Hs as [Ht Hs]. apply Forall_cons_1 in Hs as [Hi Hs].
  apply Forall_cons_1 in Hs as [Hn _].
  apply Forall_cons_1 in Ha as [Hst Ha]. apply Forall_cons_1 in Ha as [Hop _].
  assert (Hcap : ∀ k n,
             (∀ elems, own_property k props = Some (VArr elems) →
                       Forall (λ x, scalar x = true) elems) →
             is_Some (capped_entries (default VUndefined (own_property k props)) n)).
  { intros k n Hk. apply capped_entries_flat. intros elems E. apply Hk.
    destruct (own_property k props); simpl in E; [now subst|discriminate]. }
  repeat (rewrite bind_some; cbv beta).
  destruct (safeString_scalar _ 140 Ht) as [t ->]. repeat (rewrite bind_some; cbv beta).
  destruct (safeString_scalar _ 420 Hi) as [i ->]. repeat (rewrite bind_some; cbv beta).
  destruct (Hcap "steps" 8%nat Hst) as [ss ->]. repeat (rewrite bind_some; cbv beta).
  destruct (Hcap "optional" 5%nat Hop) as [os ->]. repeat (rewrite bind_some; cbv beta).
  destruct (safeString_scalar _ 260 Hn) as [n ->]. repeat (rewrite bind_some; cbv beta).
  eauto.
Qed.

(** What a successful construction of [out] went through. *)
Lemma sanitize_output_inv (parsed out : value) :
  sanitize_output parsed = Some out →
  ∃ title_v intro_v steps_v optional_v note_v title intro steps optional note,
    get_member parsed "title" = Some title_v ∧ safeString title_v 140 = Some title ∧
    get_member parsed "intro" = Some intro_v ∧ safeString intro_v 420 = Some intro ∧
    get_member parsed "steps" = Some steps_v ∧ capped_entries steps_v 8 = Some steps ∧
    get_member parsed "optional" = Some optional_v ∧
    capped_entries optional_v 5 = Some optional ∧
    get_member parsed "note" = Some note_v ∧ safeString note_v 260 = Some note ∧
    out = VObj [("title", VStr title);
                ("intro", VStr intro);
                ("steps", VArr (VStr <$> steps));
                ("optional", VArr (VStr <$> (add_optional_prefix <$> optional)));
                ("note", VStr note)].
Proof.
  unfold sanitize_output. intros H.
  destruct (get_member parsed "title") as [tv|] eqn:E1; [|discriminate]. simpl in H.
  destruct (safeString tv 140) as [t|] eqn:E2; [|discriminate]. simpl in H.
  destruct (get_member parsed "intro") as [iv|] eqn:E3; [|discriminate]. simpl in H.
  destruct (safeString iv 420) as [i|] eqn:E4; [|discriminate]. simpl in H.
  destruct (get_member parsed "steps") as [sv|] eqn:E5; [|discriminate]. simpl in H.
  destruct (capped_entries sv 8) as [ss|] eqn:E6; [|discriminate]. simpl in H.
  destruct (get_member parsed "optional") as [ov|] eqn:E7; [|discriminate]. simpl in H.
  destruct (capped_entries ov 5) as [os|] eqn:E8; [|discriminate]. simpl in H.
  destruct (get_member parsed "note") as [nv|] eqn:E9; [|discriminate]. simpl in H.
  destruct (safeString nv 260) as [n|] eqn:E10; [|discriminate]. simpl in H.
  injection H as <-. exists tv, iv, sv, ov, nv, t, i, ss, os, n. repeat split; auto.
Qed.

(** Every member of a value that is neither [null] nor [undefined] can be
    read: the construction depends on the five members only. *)
Lemma get_member_some (parsed : value) (k k' : string) (v : value) :
  get_member parsed k = Some v → is_Some (get_member parsed k').
Proof. destruct parsed; simpl; intros; try discriminate; eauto. Qed.

End OutputFacts.

(** ** Properties of the rate limiter *)

Lemma rateLimit_allowed (ip : string) (w now : Z) (recent : gmap string Z) :
  w ≤ now - default 0 (recent !! ip) →
  rateLimit ip w now recent = (true, <[ip := now]> recent).
Proof.
  intros H. unfold rateLimit.
  destruct (Z.ltb_spec (now - default 0 (recent !! ip)) w); [lia|reflexivity].
Qed.

Lemma rateLimit_denied (ip : string) (w now : Z) (recent : gmap string Z) :
  now - default 0 (recent !! ip) < w →
  rateLimit ip w now recent = (false, recent).
Proof.
  intros H. unfold rateLimit.
  destruct (Z.ltb_spec (now - default 0 (recent !! ip)) w); [reflexivity|lia].
Qed.

Lemma rateLimit_cases (ip : string) (w now : Z) (recent : gmap string Z) :
  (w ≤ now - default 0 (recent !! ip) ∧
   rateLimit ip w now recent = (true, <[ip := now]> recent)) ∨
  (now - default 0 (recent !! ip) < w ∧
   rateLimit ip w now recent = (false, recent)).
Proof.
  destruct (Z.le_gt_cases w (now - default 0 (recent !! ip))).
  - left. split; [assumption|now apply rateLimit_allowed].
  - right. split; [assumption|now apply rateLimit_denied].
Qed.

Lemma rateLimit_allowed_iff (ip : string) (w now : Z) (recent : gmap string Z) :
  (rateLimit ip w now recent).1 = true ↔ w ≤ now - default 0 (recent !! ip).
Proof.
  destruct (rateLimit_cases ip w now recent) as [[H ->]|[H ->]]; simpl;
    split; intros; try lia; try reflexivity; discriminate.
Qed.

(** Whatever calls come in between, with windows that are not negative, the
    time stamp recorded for an identifier does not go back. *)
Lemma rateLimit_run_monotone (calls : list (string * Z * Z)) (recent : gmap string Z)
    (ip : string) (t : Z) :
  Forall (λ c, 0 ≤ c.1.2) calls →
  recent !! ip = Some t →
  ∃ t', rateLimit_run calls recent !! ip = Some t' ∧ t ≤ t'.
Proof.
  revert recent t. induction calls as [|[[ip' w] now] rest IH]; intros recent t Hw Ht.
  - exists t. split; [exact Ht|lia].
  - inversion Hw as [|? ? Hw0 Hrest]; subst. simpl in Hw0. simpl.
    destruct (rateLimit_cases ip' w now recent) as [[Hle ->]|[_ ->]]; simpl.
    + destruct (decide (ip' = ip)) as [->|Hne].
      * rewrite Ht in Hle. simpl in Hle.
        destruct (IH (<[ip := now]> recent) now Hrest) as (t' & Ht' & Hle');
          [apply lookup_insert_eq|].
        exists t'. split; [exact Ht'|lia].
      * apply IH; [exact Hrest|]. now rewrite lookup_insert_ne.
    + now apply IH.
Qed.

(** With a clock reading of at least the window, which is the case for
    every reading of a real clock and the window of 2500 ms, the request is
    allowed exactly when nothing is recorded or the recorded time stamp is
    at least the window ago. *)
Lemma rateLimit_late_clock (ip : string) (w now : Z) (recent : gmap string Z) :
  w ≤ now →
  ((rateLimit ip w now recent).1 = true ↔
   recent !! ip = None ∨ ∃ t, recent !! ip = Some t ∧ w ≤ now - t).
Proof.
  intros Hw. rewrite rateLimit_allowed_iff.
  destruct (recent !! ip) as [t|] eqn:E; simpl.
  - split.
    + intros H. right. exists t. auto.
    + intros [H|(t' & [= <-] & H)]; [discriminate|exact H].
  - split; [auto|intros _; lia].
Qed.

Lemma rateLimit_separation (ip : string) (w now : Z) (recent : gmap string Z)
    (calls : list (string * Z * Z)) (w' now' : Z) :
  (rateLimit ip w now recent).1 = true →
  Forall (λ c, 0 ≤ c.1.2) calls →
  (rateLimit ip w' now' (rateLimit_run calls (rateLimit ip w now recent).2)).1 = true →
  w' ≤ now' - now.
Proof.
  intros Hacc Hw Hacc'.
  destruct (rateLimit_cases ip w now recent) as [[_ E]|[_ E]];
    rewrite E in Hacc, Hacc'; simpl in Hacc, Hacc'; [|discriminate].
  destruct (rateLimit_run_monotone calls (<[ip := now]> recent) ip now Hw)
    as (t' & Ht' & Hle); [apply lookup_insert_eq|].
  destruct (rateLimit_cases ip w' now' (rateLimit_run calls (<[ip := now]> recent)))
    as [[H _]|[_ E']]; [|rewrite E' in Hacc'; discriminate].
  rewrite Ht' in H. simpl in H. lia.
Qed.

(** C1.  On a clock that reads at least the window, as every real clock does
    for the window of 2500 ms, the rate limiter allows a request if and only
    if no time stamp is recorded for the identifier or the current time
    minus the recorded time stamp is at least the window.  An allowed request
    records the current time, a denied one leaves the map as it is, and two
    accepted requests of one identifier are at least the window of the
    second apart, whatever calls with non-negative windows come between
    them. *)
Theorem rateLimit_spec (ip : string) (w now : Z) (recent : gmap string Z) :
  w ≤ now →
  ((rateLimit ip w now recent).1 = true ↔
   recent !! ip = None ∨ ∃ t, recent !! ip = Some t ∧ w ≤ now - t) ∧
  ((rateLimit ip w now recent).1 = true →
     (rateLimit ip w now recent).2 = <[ip := now]> recent) ∧
  ((rateLimit ip w now recent).1 = false → (rateLimit ip w now recent).2 = recent) ∧
  (∀ calls w' now',
     (rateLimit ip w now recent).1 = true →
     Forall (λ c, 0 ≤ c.1.2) calls →
     (rateLimit ip w' now' (rateLimit_run calls (rateLimit ip w now recent).2)).1 = true →
     w' ≤ now' - now).
Proof.
  intros Hw.
  split; [now apply rateLimit_late_clock|].
  split; [|split].
  - destruct (rateLimit_cases ip w now recent) as [[_ ->]|[_ ->]]; simpl;
      [reflexivity|discriminate].
  - destruct (rateLimit_cases ip w now recent) as [[_ ->]|[_ ->]]; simpl;
      [discriminate|reflexivity].
  - intros calls w' now'. apply rateLimit_separation.
Qed.

Lemma rateLimit_spec_witness :
  rateLimit_default_window ≤ 1700000000000 ∧
  (rateLimit "203.0.113.7" 2500 1700000000000 ∅).1 = true ∧
  (rateLimit "203.0.113.7" 2500 1700000000000 ∅).2
    = <["203.0.113.7" := 1700000000000]> ∅ ∧
  (rateLimit "203.0.113.7" 2500 1700000001000
     (<["203.0.113.7" := 1700000000000]> ∅)).1 = false ∧
  2500 ≤ 1700000002500 - 1700000000000.
Proof.
  assert (Hw : 2500 ≤ 1700000000000) by lia.
  assert (Hw' : 2500 ≤ 1700000001000) by lia.
  pose proof (rateLimit_spec "203.0.113.7" 2500 1700000000000 ∅ Hw)
    as (Hiff & Hset & _ & Hsep).
  pose proof (rateLimit_spec "203.0.113.7" 2500 1700000001000
                (<["203.0.113.7" := 1700000000000]> ∅) Hw') as (Hiff' & _).
  assert (Hacc : (rateLimit "203.0.113.7" 2500 1700000000000 ∅).1 = true).
  { apply Hiff. left. reflexivity. }
  split; [exact Hw|]. split; [exact Hacc|]. split; [exact (Hset Hacc)|].
  split.
  - apply not_true_is_false. intros E.
    apply Hiff' in E. destruct E as [E|(t & E & Ht)].
    + rewrite lookup_insert_eq in E. discriminate.
    + rewrite lookup_insert_eq in E. injection E as <-. lia.
  - apply (Hsep [("198.51.100.1", 2500, 1700000000500);
                 ("203.0.113.7", 2500, 1700000001000)] 2500 1700000002500 Hacc).
    + repeat constructor; simpl; lia.
    + vm_compute. reflexivity.
Defined.

(** Before the clock has reached the window the limiter treats an identifier
    without a time stamp as one recorded at time 0: such a request is
    denied. *)
Lemma rateLimit_denies_unrecorded :
  (∅ : gmap string Z) !! "203.0.113.7" = None ∧
  (rateLimit "203.0.113.7" rateLimit_default_window 1000 ∅).1 = false.
Proof. repeat split. Qed.

(** ** Properties of the handler *)

Section HandlerProperties.

Context {engine : Engine}.
Variable JSON_parse : string → option value.

Implicit Types (req : Request) (env : Env) (fetch : chat_request → fetch_result).
Implicit Types (recent : gmap string Z) (now : Z).

Lemma handler_not_post req env now fetch recent :
  method req ≠ "POST" →
  handler JSON_parse req env now fetch recent
  = (text_response "Method Not Allowed" 405, recent, []).
Proof.
  intros H. unfold handler.
  destruct (String.eqb_spec (method req) "POST"); [contradiction|reflexivity].
Qed.

Lemma handler_denied req env now fetch recent :
  method req = "POST" →
  now - default 0 (recent !! client_ip req) < rateLimit_default_window →
  handler JSON_parse req env now fetch recent
  = (text_response "Too many requests. Please slow down." 429, recent, []).
Proof.
  intros Hm Hlt. unfold handler. rewrite Hm. simpl.
  now rewrite rateLimit_denied.
Qed.

Lemma handler_allowed req env now fetch recent :
  method req = "POST" →
  rateLimit_default_window ≤ now - default 0 (recent !! client_ip req) →
  handler JSON_parse req env now fetch recent
  = (default (text_response "Server error" 500) (process JSON_parse req env fetch).1,
     <[client_ip req := now]> recent,
     (process JSON_parse req env fetch).2).
Proof.
  intros Hm Hle. unfold handler. rewrite Hm. simpl.
  rewrite rateLimit_allowed by assumption. simpl.
  now destruct (process JSON_parse req env fetch).
Qed.

(** The handler reaches the parsing of the content with one outbound call
    behind it. *)
Lemma process_content req env fetch (text : string) :
  provider_content JSON_parse req env fetch text →
  ∃ call, process JSON_parse req env fetch = (respond_content JSON_parse text, [call]).
Proof.
  intros (ing & s & k & answer & json & Hing & Hs & Hne & Hk & Hkne & Hf & Hj & Hc).
  unfold process. rewrite Hing, Hs, Hne, Hk.
  destruct k as [|c k]; [discriminate|].
  eexists. rewrite Hf. simpl. rewrite Hj. simpl. rewrite Hc. reflexivity.
Qed.

(** A 200 response comes from the end of the pipeline only. *)
Lemma process_200_inv req env fetch (r : Response) :
  (process JSON_parse req env fetch).1 = Some r →
  status r = 200 →
  ∃ text parsed out,
    provider_content JSON_parse req env fetch text ∧
    parse_content JSON_parse text = Some parsed ∧
    sanitize_output parsed = Some out ∧
    r = json_response out.
Proof.
  unfold process.
  destruct (get_member _ "ingredients") as [ing|] eqn:Hing; [|discriminate].
  destruct (safeString ing 700) as [s|] eqn:Hs; [|discriminate].
  destruct (is_empty (trim s)) eqn:Hne; [intros [= <-]; discriminate|].
  destruct (OPENAI_API_KEY env) as [[|c k]|] eqn:Hk;
    try (intros [= <-]; discriminate).
  simpl. destruct (fetch _) as [|[|] [answer|]] eqn:Hf; simpl;
    try discriminate; try (intros [= <-]; discriminate).
  destruct (JSON_parse answer) as [json|] eqn:Hj; [|discriminate]. simpl.
  destruct (extract_content json) as [text|] eqn:Hc; [|discriminate]. simpl.
  unfold respond_content.
  destruct (parse_content JSON_parse text) as [parsed|] eqn:Hp; [|discriminate]. simpl.
  destruct (sanitize_output parsed) as [out|] eqn:Ho; [|discriminate]. simpl.
  intros [= <-] _. exists text, parsed, out. repeat split; auto.
  exists ing, s, (String c k), answer, json. repeat split; auto.
Qed.

Lemma handler_200_inv req env now fetch recent :
  status (handler JSON_parse req env now fetch recent).1.1 = 200 →
  ∃ text parsed out,
    provider_content JSON_parse req env fetch text ∧
    parse_content JSON_parse text = Some parsed ∧
    sanitize_output parsed = Some out ∧
    (handler JSON_parse req env now fetch recent).1.1 = json_response out.
Proof.
  destruct (String.eqb_spec (method req) "POST") as [Hm|Hm].
  - destruct (Z.le_gt_cases rateLimit_default_window
                (now - default 0 (recent !! client_ip req))) as [Hle|Hgt].
    + rewrite handler_allowed by assumption. simpl.
      destruct (process JSON_parse req env fetch).1 as [r|] eqn:Hr; simpl;
        [|discriminate].
      intros H200. destruct (process_200_inv _ _ _ _ Hr H200) as (t & p & o & ?).
      exists t, p, o. tauto.
    + rewrite handler_denied by (assumption || lia). discriminate.
  - rewrite handler_not_post by assumption. discriminate.
Qed.

Lemma handler_content req env now fetch recent (text : string) :
  method req = "POST" →
  rateLimit_default_window ≤ now - default 0 (recent !! client_ip req) →
  provider_content JSON_parse req env fetch text →
  (handler JSON_parse req env now fetch recent).1.1
  = default (text_response "Server error" 500) (respond_content JSON_parse text).
Proof.
  intros Hm Hle Hc. rewrite handler_allowed by assumption.
  destruct (process_content _ _ _ _ Hc) as [call ->]. reflexivity.
Qed.

End HandlerProperties.

(** ** The output object as a recipe suggestion *)

Section OutputObject.

Context {engine : Engine}.

Lemma get_member_undefined_inv (parsed : value) (k : string) (v : value) :
  get_member parsed k = Some VUndefined → get_member parsed k = Some v → v = VUndefined.
Proof. congruence. Qed.

Lemma sanitize_output_suggestion (parsed out : value) :
  sanitize_output parsed = Some out → recipe_suggestion parsed out.
Proof.
  intros H. apply sanitize_output_inv in H
    as (tv & iv & sv & ov & nv & t & i & ss & os & n &
        Htv & Ht & Hiv & Hi & Hsv & Hss & Hov & Hos & Hnv & Hn & ->).
  exists t, i, ss, (add_optional_prefix <$> os), n.
  apply safeString_length in Ht as Ht', Hi as Hi', Hn as Hn'; try lia.
  apply capped_entries_bounds in Hss as Hss', Hos as Hos'.
  destruct Hss' as [Hss1 Hss2], Hos' as [Hos1 Hos2].
  split; [reflexivity|].
  split; [lia|]. split; [lia|]. split; [lia|].
  split; [exact Hss1|]. split; [exact Hss2|].
  split; [now rewrite length_fmap|].
  split.
  { apply Forall_fmap. eapply Forall_impl; [exact Hos2|].
    intros s Hs. unfold compose. simpl in *.
    split; [|apply add_optional_prefix_starts].
    pose proof (add_optional_prefix_length s). lia. }
  split; [intros E; rewrite E in Htv; injection Htv as <-;
          rewrite safeString_undefined in Ht; congruence|].
  split; [intros E; rewrite E in Hiv; injection Hiv as <-;
          rewrite safeString_undefined in Hi; congruence|].
  split; [intros E; rewrite E in Hnv; injection Hnv as <-;
          rewrite safeString_undefined in Hn; congruence|].
  split.
  - intros v E Hv. rewrite E in Hsv. injection Hsv as <-.
    rewrite capped_entries_not_array in Hss by exact Hv. congruence.
  - intros v E Hv. rewrite E in Hov. injection Hov as <-.
    rewrite capped_entries_not_array in Hos by exact Hv.
    injection Hos as <-. reflexivity.
Qed.

Lemma fmap_slice0_short (l : list string) (max : Z) :
  Forall (λ s, Z.of_nat (String.length s) ≤ max) l →
  (λ s, slice0 s max) <$> l = l.
Proof.
  induction 1 as [|s l Hs _ IH]; csimpl; [reflexivity|].
  rewrite slice0_short by exact Hs. now f_equal.
Qed.

(** A second pass over an output object: everything stays but the optional
    entries, which are cut to 220 characters. *)
Lemma sanitize_output_again (t i n : string) (ss os : list string) :
  (String.length t ≤ 140)%nat → (String.length i ≤ 420)%nat →
  (String.length n ≤ 260)%nat →
  (length ss ≤ 8)%nat → Forall (λ s, (String.length s ≤ 220)%nat) ss →
  (length os ≤ 5)%nat → Forall (λ s, startsWith s "Optional:" = true) os →
  sanitize_output (VObj [("title", VStr t); ("intro", VStr i);
                         ("steps", VArr (VStr <$> ss));
                         ("optional", VArr (VStr <$> os));
                         ("note", VStr n)])
  = Some (VObj [("title", VStr t); ("intro", VStr i);
                ("steps", VArr (VStr <$> ss));
                ("optional", VArr (VStr <$> ((λ s, slice0 s 220) <$> os)));
                ("note", VStr n)]).
Proof.
  intros Ht Hi Hn Hss1 Hss2 Hos1 Hos2.
  unfold sanitize_output, get_member. simpl own_property. simpl default.
  repeat (first [rewrite bind_some | rewrite safeString_str
                | rewrite capped_entries_strings]; cbv beta).
  rewrite !slice0_short by lia. rewrite !take_ge by assumption.
  rewrite (fmap_slice0_short ss).
  2:{ eapply Forall_impl; [exact Hss2|]. simpl. intros; lia. }
  assert (Hfix : add_optional_prefix <$> ((λ s, slice0 s 220) <$> os)
                 = (λ s, slice0 s 220) <$> os).
  { rewrite <- list_fmap_compose. apply Forall_fmap_ext.
    eapply Forall_impl; [exact Hos2|].
    intros s Hs. simpl. apply add_optional_prefix_fixed.
    rewrite startsWith_slice0; [exact Hs|simpl; lia]. }
  rewrite Hfix. reflexivity.
Qed.

Lemma fmap_slice0_fixed (l : list string) (max : Z) :
  0 ≤ max → (λ s, slice0 s max) <$> l = l →
  Forall (λ s, Z.of_nat (String.length s) ≤ max) l.
Proof.
  intros Hmax. induction l as [|s l IH]; csimpl; intros H; constructor.
  - injection H as Hs _. rewrite <- Hs. now apply slice0_length.
  - injection H as _ Hl. now apply IH.
Qed.

(** C7 (amended).  A second pass over an output object leaves title, intro,
    steps and note as they are and puts no further prefix in front of an
    optional entry, but it cuts every optional entry to 220 characters: an
    entry that got its prefix in the first pass may have up to 230.  The
    second pass gives the same object exactly when no optional entry of the
    object is longer than 220 characters. *)
Theorem sanitize_output_twice (parsed out : value) :
  sanitize_output parsed = Some out →
  ∃ title intro steps optional note,
    out = VObj [("title", VStr title); ("intro", VStr intro);
                ("steps", VArr (VStr <$> steps));
                ("optional", VArr (VStr <$> optional));
                ("note", VStr note)] ∧
    sanitize_output out
    = Some (VObj [("title", VStr title); ("intro", VStr intro);
                  ("steps", VArr (VStr <$> steps));
                  ("optional", VArr (VStr <$> ((λ s, slice0 s 220) <$> optional)));
                  ("note", VStr note)]) ∧
    (sanitize_output out = Some out ↔
     Forall (λ s, (String.length s ≤ 220)%nat) optional).
Proof.
  intros H. destruct (sanitize_output_suggestion _ _ H)
    as (t & i & ss & os & n & -> & Ht & Hi & Hn & Hss1 & Hss2 & Hos1 & Hos2 & _).
  exists t, i, ss, os, n. split; [reflexivity|].
  assert (Hagain := sanitize_output_again t i n ss os Ht Hi Hn Hss1 Hss2 Hos1).
  rewrite Hagain by (eapply Forall_impl; [exact Hos2|]; simpl; tauto).
  split; [reflexivity|]. split.
  - intros [= E]. apply (inj (fmap VStr)) in E.
    apply fmap_slice0_fixed in E; [|lia].
    eapply Forall_impl; [exact E|]. simpl. intros; lia.
  - intros Hlen. rewrite fmap_slice0_short; [reflexivity|].
    eapply Forall_impl; [exact Hlen|]. simpl. intros; lia.
Qed.

(** C6 (amended).  A string entry among the first five of the parsed
    optional array (the entries behind them are dropped) is cut to 220
    characters; it then gets the prefix in front when it does not begin with
    it, and nothing in front when it does, so that no entry gets the prefix
    twice.  An entry that begins with the prefix comes out as a prefix of
    itself, and unchanged when it has at most 220 characters. *)
Theorem optional_prefix_added_once (parsed out : value) (elems : list value)
    (i : nat) (s : string) :
  get_member parsed "optional" = Some (VArr elems) →
  sanitize_output parsed = Some out →
  elems !! i = Some (VStr s) →
  (i < 5)%nat →
  ∃ entries,
    get_member out "optional" = Some (VArr entries) ∧
    (length entries ≤ 5)%nat ∧
    entries !! i = Some (VStr (if startsWith s "Optional:" then slice0 s 220
                               else "Optional: " +:+ slice0 s 220)) ∧
    (startsWith s "Optional:" = true → (String.length s ≤ 220)%nat →
     entries !! i = Some (VStr s)) ∧
    (startsWith s "Optional:" = true →
     ∃ e, entries !! i = Some (VStr e) ∧ String.prefix e s = true).
Proof.
  intros Hopt Hout Hi Hlt.
  apply sanitize_output_inv in Hout
    as (tv & iv & sv & ov & nv & t & i' & ss & os & n &
        _ & _ & _ & _ & _ & _ & Hov & Hos & _ & _ & ->).
  rewrite Hopt in Hov. injection Hov as <-.
  pose proof (capped_entries_bounds _ _ _ Hos) as [Hlen _].
  simpl in Hos. apply mapM_Some_1 in Hos.
  assert (Ht : take 5 elems !! i = Some (VStr s)) by now rewrite lookup_take_lt.
  destruct (Forall2_lookup_l _ _ _ _ _ Hos Ht) as (y & Hy & Hsy).
  rewrite safeString_str in Hsy. injection Hsy as <-.
  assert (Hentry : (VStr <$> (add_optional_prefix <$> os)) !! i
                   = Some (VStr (if startsWith s "Optional:" then slice0 s 220
                                 else "Optional: " +:+ slice0 s 220))).
  { rewrite !list_lookup_fmap, Hy. simpl. do 2 f_equal.
    unfold add_optional_prefix. rewrite startsWith_slice0 by (simpl; lia).
    reflexivity. }
  eexists. split; [reflexivity|].
  split; [now rewrite !length_fmap|].
  split; [exact Hentry|]. split.
  - intros Hs Hl. rewrite Hentry, Hs. now rewrite slice0_short by lia.
  - intros Hs. rewrite Hentry, Hs. eexists. split; [reflexivity|apply slice0_prefix].
Qed.

End OutputObject.

Lemma sanitize_output_twice_witness :
  ∃ out,
    sanitize_output
      (VObj [("title", VStr "Spinach Rice Skillet");
             ("optional", VArr [VStr "garlic if you have it"])]) = Some out ∧
    sanitize_output out = Some out.
Proof.
  destruct (sanitize_output_twice
              (VObj [("title", VStr "Spinach Rice Skillet");
                     ("optional", VArr [VStr "garlic if you have it"])])
              (VObj [("title", VStr "Spinach Rice Skillet"); ("intro", VStr "");
                     ("steps", VArr []);
                     ("optional", VArr [VStr "Optional: garlic if you have it"]);
                     ("note", VStr "")]) eq_refl)
    as (t & i & ss & os & n & E & _ & Hiff).
  eexists. split; [reflexivity|].
  apply Hiff. injection E as _ _ _ Eo _.
  destruct os as [|o [|o' os]]; try discriminate Eo.
  injection Eo as <-. constructor; [simpl; lia|constructor].
Defined.

(** C7 (as stated).  An optional entry of 211 characters gets the prefix in
    the first pass and has 221 characters; the second pass cuts it to 220:
    the two objects differ. *)
Lemma sanitize_output_not_idempotent :
  ∃ out,
    sanitize_output (VObj [("optional", VArr [VStr (str_repeat 211 "a")])]) = Some out ∧
    sanitize_output out ≠ Some out.
Proof.
  eexists. split; [vm_compute; reflexivity|].
  vm_compute. discriminate.
Qed.

Lemma optional_prefix_added_once_witness :
  ∃ entries,
    get_member
      (VObj [("title", VStr ""); ("intro", VStr ""); ("steps", VArr []);
             ("optional", VArr [VStr "Optional: garlic if you have it";
                                VStr "Optional: chili flakes"]);
             ("note", VStr "")]) "optional" = Some (VArr entries) ∧
    entries !! 0%nat = Some (VStr "Optional: garlic if you have it") ∧
    entries !! 1%nat = Some (VStr "Optional: chili flakes").
Proof.
  destruct (optional_prefix_added_once
              (VObj [("optional", VArr [VStr "garlic if you have it";
                                        VStr "Optional: chili flakes"])])
              _ _ 0%nat "garlic if you have it" eq_refl eq_refl eq_refl
              (le_S _ _ (le_S _ _ (le_S _ _ (le_S _ _ (le_n 1))))))
    as (entries & Hm & _ & H0 & _).
  destruct (optional_prefix_added_once
              (VObj [("optional", VArr [VStr "garlic if you have it";
                                        VStr "Optional: chili flakes"])])
              _ _ 1%nat "Optional: chili flakes" eq_refl eq_refl eq_refl
              (le_S _ _ (le_S _ _ (le_S _ _ (le_n 2)))))
    as (entries' & Hm' & _ & _ & H1 & _).
  exists entries. split; [exact Hm|]. split; [exact H0|].
  rewrite Hm in Hm'. injection Hm' as <-.
  apply H1; [reflexivity|simpl; lia].
Defined.

(** C6 (as stated).  An entry that begins with the prefix and has 310
    characters comes out cut to its first 220, not unchanged; and of six
    entries the sixth is dropped, with or without the prefix. *)
Lemma optional_entry_cut_or_dropped :
  startsWith ("Optional: " +:+ str_repeat 300 "a") "Optional:" = true ∧
  sanitize_output
    (VObj [("optional", VArr [VStr ("Optional: " +:+ str_repeat 300 "a")])])
  = Some (VObj [("title", VStr ""); ("intro", VStr ""); ("steps", VArr []);
                ("optional", VArr [VStr ("Optional: " +:+ str_repeat 210 "a")]);
                ("note", VStr "")]) ∧
  sanitize_output
    (VObj [("optional", VArr [VStr "Optional: a"; VStr "Optional: b"; VStr "Optional: c";
                              VStr "Optional: d"; VStr "Optional: e"; VStr "f"])])
  = Some (VObj [("title", VStr ""); ("intro", VStr ""); ("steps", VArr []);
                ("optional", VArr [VStr "Optional: a"; VStr "Optional: b";
                                   VStr "Optional: c"; VStr "Optional: d";
                                   VStr "Optional: e"]);
                ("note", VStr "")]).
Proof. repeat split; by_computation. Qed.

(** ** Properties of the whole request *)

Lemma from_first_lbrace_app (pre obj : string) :
  from_first_lbrace pre = None →
  from_first_lbrace (pre +:+ obj) = from_first_lbrace obj.
Proof.
  induction pre as [|c pre IH]; [reflexivity|].
  rewrite app_String. simpl. destruct (Ascii.eqb c "{"); [discriminate|exact IH].
Qed.

Lemma match_trailing_object_app (pre obj : string) :
  from_first_lbrace pre = None →
  from_first_lbrace obj = Some obj →
  ends_with_rbrace obj = true →
  match_trailing_object (pre +:+ obj) = Some obj.
Proof.
  intros Hpre Hobj Hend. unfold match_trailing_object.
  rewrite from_first_lbrace_app, Hobj by assumption.
  destruct obj as [|c rest]; [discriminate|].
  simpl in Hobj. destruct (Ascii.eqb_spec c "{") as [->|Hc].
  - destruct rest as [|d rest]; [discriminate|].
    change (ends_with_rbrace (String d rest) = true) in Hend.
    now rewrite Hend.
  - clear Hend. exfalso. revert c Hc Hobj.
    assert (Hlen : ∀ s r, from_first_lbrace s = Some r →
                          (String.length r ≤ String.length s)%nat).
    { induction s as [|a s IHs]; simpl; [discriminate|].
      destruct (Ascii.eqb a "{"); intros r.
      - intros [= <-]. simpl. lia.
      - intros Hr. apply IHs in Hr. lia. }
    intros c _ Hobj. apply Hlen in Hobj. simpl in Hobj. lia.
Qed.

Section Claims.

Context {engine : Engine}.
Variable JSON_parse : string → option value.

Implicit Types (req : Request) (env : Env) (fetch : chat_request → fetch_result).
Implicit Types (recent : gmap string Z) (now : Z).

(** C8.  A request whose method is not POST gets the 405 response; the map
    of the rate limiter is the one it was and no outbound call is made,
    whatever the clock, the body, the headers and the environment are. *)
Theorem non_post_405 req env now fetch recent :
  method req ≠ "POST" →
  handler JSON_parse req env now fetch recent
  = (text_response "Method Not Allowed" 405, recent, []).
Proof. apply handler_not_post. Qed.

(** C9.  A POST that ends with status 400, 500 or 502 has passed the rate
    limit: the time stamp of its client is its arrival time, and a POST of
    the same client that arrives less than the window later gets 429,
    leaves the map as it is and makes no outbound call. *)
Theorem failed_request_consumes_window req env now fetch recent :
  method req = "POST" →
  status (handler JSON_parse req env now fetch recent).1.1 ∈ [400; 500; 502] →
  (handler JSON_parse req env now fetch recent).1.2 !! client_ip req = Some now ∧
  ∀ req' env' now' fetch',
    method req' = "POST" →
    client_ip req' = client_ip req →
    now' - now < rateLimit_default_window →
    handler JSON_parse req' env' now' fetch'
      (handler JSON_parse req env now fetch recent).1.2
    = (text_response "Too many requests. Please slow down." 429,
       (handler JSON_parse req env now fetch recent).1.2, []).
Proof.
  intros Hm Hst.
  destruct (Z.le_gt_cases rateLimit_default_window
              (now - default 0 (recent !! client_ip req))) as [Hle|Hgt].
  - rewrite handler_allowed by assumption. simpl.
    split; [apply lookup_insert_eq|].
    intros req' env' now' fetch' Hm' Hip Hlt.
    apply handler_denied; [exact Hm'|].
    rewrite Hip, lookup_insert_eq. simpl. exact Hlt.
  - rewrite handler_denied in Hst by (assumption || lia). simpl in Hst.
    rewrite !elem_of_cons, elem_of_nil in Hst. intuition discriminate.
Qed.

(** C4 (amended).  A POST that passes the rate limit gets the 400 response
    with no outbound call when its body does not parse, when the parsed
    body, not being [null], has no member ingredients, or when the
    sanitized ingredients trim to the empty string.  Only the parsed body,
    with the empty object in the place of a body that does not parse,
    enters the handler. *)
Theorem missing_ingredients_400 req env now fetch recent :
  method req = "POST" →
  (rateLimit (client_ip req) rateLimit_default_window now recent).1 = true →
  (JSON_parse (body req) = None ∨
   get_member (default (VObj []) (JSON_parse (body req))) "ingredients"
     = Some VUndefined ∨
   ∃ ingredients s,
     get_member (default (VObj []) (JSON_parse (body req))) "ingredients"
       = Some ingredients ∧
     safeString ingredients 700 = Some s ∧ trim s = "") →
  handler JSON_parse req env now fetch recent
  = (text_response "Missing ingredients" 400, <[client_ip req := now]> recent, []) ∧
  ∀ req',
    method req' = method req → client_ip req' = client_ip req →
    default (VObj []) (JSON_parse (body req')) = default (VObj []) (JSON_parse (body req)) →
    handler JSON_parse req' env now fetch recent
    = handler JSON_parse req env now fetch recent.
Proof.
  intros Hm Hle%rateLimit_allowed_iff Hcase. split.
  - rewrite handler_allowed by assumption.
    assert (Hp : process JSON_parse req env fetch
                 = (Some (text_response "Missing ingredients" 400), [])).
    { unfold process. destruct Hcase as [Hnone|[Habs|(ing & s & Hing & Hs & Ht)]].
      - rewrite Hnone. reflexivity.
      - rewrite Habs. reflexivity.
      - rewrite Hing, Hs, Ht. reflexivity. }
    rewrite Hp. reflexivity.
  - intros req' Hm' Hip Hbody. unfold handler, process.
    rewrite Hm', Hip, Hbody. reflexivity.
Qed.

(** C2 (amended).  When the content parses to an object whose title, intro
    and note are neither arrays nor objects, and whose steps and optional
    have no arrays or objects as entries, the handler answers with status
    200; and every 200
    response carries, as JSON, an object with the five members title,
    intro, steps, optional and note in this order: title of at most 140
    characters, intro of at most 420, note of at most 260, at most 8 steps
    of at most 220 characters, at most 5 optional entries that begin with
    the prefix and have at most 230 characters (220 before the prefix is
    put in front), a missing string member being the empty string and a
    steps or optional member that is missing or not an array being the
    empty sequence. *)
Theorem response_200_is_recipe_suggestion req env now fetch recent :
  (∀ text props,
     method req = "POST" →
     (rateLimit (client_ip req) rateLimit_default_window now recent).1 = true →
     provider_content JSON_parse req env fetch text →
     parse_content JSON_parse text = Some (VObj props) →
     flat_members props →
     status (handler JSON_parse req env now fetch recent).1.1 = 200) ∧
  (status (handler JSON_parse req env now fetch recent).1.1 = 200 →
   ∃ text parsed out,
     provider_content JSON_parse req env fetch text ∧
     parse_content JSON_parse text = Some parsed ∧
     (handler JSON_parse req env now fetch recent).1.1 = json_response out ∧
     recipe_suggestion parsed out).
Proof.
  split.
  - intros text props Hm Hle%rateLimit_allowed_iff Hc Hp Hno.
    rewrite (handler_content _ _ _ _ _ _ text) by assumption.
    unfold respond_content. rewrite Hp. simpl.
    destruct (sanitize_output_flat props Hno) as [out ->]. reflexivity.
  - intros H200. destruct (handler_200_inv _ _ _ _ _ _ H200)
      as (text & parsed & out & Hc & Hp & Ho & Hr).
    exists text, parsed, out. repeat split; auto.
    now apply sanitize_output_suggestion.
Qed.

(** C3 (amended).  When the content is a text without an opening brace
    followed by the text of a JSON object, and is not JSON as a whole, the
    fallback matches exactly the object, parses it, and the handler answers
    with the sanitized object (or with the 500 response when its
    sanitization throws).  When neither the direct parse nor the fallback
    gives a value, the handler answers with the generic 500 response. *)
Theorem fallback_recovers_trailing_object req env now fetch recent :
  method req = "POST" →
  (rateLimit (client_ip req) rateLimit_default_window now recent).1 = true →
  (∀ pre obj v,
     provider_content JSON_parse req env fetch (pre +:+ obj) →
     JSON_parse (pre +:+ obj) = None →
     from_first_lbrace pre = None →
     from_first_lbrace obj = Some obj →
     ends_with_rbrace obj = true →
     JSON_parse obj = Some v →
     match_trailing_object (pre +:+ obj) = Some obj ∧
     parse_content JSON_parse (pre +:+ obj) = Some v ∧
     (handler JSON_parse req env now fetch recent).1.1
     = default (text_response "Server error" 500)
         (json_response <$> sanitize_output v)) ∧
  (∀ text,
     provider_content JSON_parse req env fetch text →
     parse_content JSON_parse text = None →
     (handler JSON_parse req env now fetch recent).1.1
     = text_response "Server error" 500).
Proof.
  intros Hm Hle%rateLimit_allowed_iff. split.
  - intros pre obj v Hc Hnot Hpre Hobj Hend Hv.
    pose proof (match_trailing_object_app pre obj Hpre Hobj Hend) as Hmatch.
    assert (Hp : parse_content JSON_parse (pre +:+ obj) = Some v).
    { unfold parse_content. now rewrite Hnot, Hmatch. }
    split; [exact Hmatch|]. split; [exact Hp|].
    rewrite (handler_content _ _ _ _ _ _ _ Hm Hle Hc).
    unfold respond_content. rewrite Hp. simpl.
    now destruct (sanitize_output v).
  - intros text Hc Hp.
    rewrite (handler_content _ _ _ _ _ _ _ Hm Hle Hc).
    unfold respond_content. now rewrite Hp.
Qed.

(** C10.  When the content parses, directly or through the fallback, to
    [null], the handler answers with status 500; when it parses to a
    number, a string or a boolean, the handler answers with status 200 and
    the object whose title, intro and note are empty strings and whose
    steps and optional are empty sequences. *)
Theorem null_500_primitive_200 req env now fetch recent (text : string) :
  method req = "POST" →
  (rateLimit (client_ip req) rateLimit_default_window now recent).1 = true →
  provider_content JSON_parse req env fetch text →
  (parse_content JSON_parse text = Some VNull →
   (handler JSON_parse req env now fetch recent).1.1
   = text_response "Server error" 500) ∧
  (∀ v, parse_content JSON_parse text = Some v →
        (∃ n, v = VNum n) ∨ (∃ s, v = VStr s) ∨ (∃ b, v = VBool b) →
        (handler JSON_parse req env now fetch recent).1.1
        = json_response empty_suggestion).
Proof.
  intros Hm Hle%rateLimit_allowed_iff Hc.
  rewrite (handler_content _ _ _ _ _ _ _ Hm Hle Hc). unfold respond_content.
  split.
  - intros ->. reflexivity.
  - intros v -> [[n ->]|[[s ->]|[b ->]]]; reflexivity.
Qed.

End Claims.

(** ** The example requests *)

Lemma fixture_allowed (b : string) :
  (rateLimit (client_ip (Fixture.post b)) rateLimit_default_window Fixture.now ∅).1 = true.
Proof. by_computation. Qed.

Lemma non_post_405_witness :
  handler RefJSON.parse
    {| method := "GET"; x_nf_client_connection_ip := Some "203.0.113.7";
       x_forwarded_for := None; body := Fixture.ingredients_body |}
    Fixture.env Fixture.now (Fixture.provider Fixture.recipe)
    (<["203.0.113.7" := 5]> ∅)
  = (text_response "Method Not Allowed" 405, <["203.0.113.7" := 5]> ∅, []).
Proof. apply non_post_405. simpl. discriminate. Defined.

Lemma failed_request_consumes_window_witness :
  status (handler RefJSON.parse (Fixture.post "not json") Fixture.env Fixture.now
            (Fixture.provider Fixture.recipe) ∅).1.1 = 400 ∧
  (handler RefJSON.parse (Fixture.post "not json") Fixture.env Fixture.now
     (Fixture.provider Fixture.recipe) ∅).1.2 !! "203.0.113.7" = Some Fixture.now ∧
  status (handler RefJSON.parse (Fixture.post Fixture.ingredients_body) Fixture.env
            (Fixture.now + 1000) (Fixture.provider Fixture.recipe)
            (handler RefJSON.parse (Fixture.post "not json") Fixture.env Fixture.now
               (Fixture.provider Fixture.recipe) ∅).1.2).1.1 = 429.
Proof.
  destruct (failed_request_consumes_window RefJSON.parse
              (Fixture.post "not json") Fixture.env Fixture.now
              (Fixture.provider Fixture.recipe) ∅) as [Hrec Hnext].
  - reflexivity.
  - vm_compute. apply list_elem_of_here.
  - split; [by_computation|]. split; [exact Hrec|].
    rewrite (Hnext (Fixture.post Fixture.ingredients_body) Fixture.env
               (Fixture.now + 1000) (Fixture.provider Fixture.recipe));
      [reflexivity|reflexivity|reflexivity|by_computation].
Defined.

Lemma missing_ingredients_400_witness :
  RefJSON.parse "not json" = None ∧
  handler RefJSON.parse (Fixture.post "not json") Fixture.env Fixture.now
    (Fixture.provider Fixture.recipe) ∅
  = (text_response "Missing ingredients" 400, <["203.0.113.7" := Fixture.now]> ∅, []).
Proof.
  split; [by_computation|].
  refine (proj1 (missing_ingredients_400 RefJSON.parse (Fixture.post "not json")
                   Fixture.env Fixture.now (Fixture.provider Fixture.recipe) ∅
                   eq_refl (fixture_allowed _) (or_introl _))).
  by_computation.
Defined.

(** C4 (as stated).  The body does not parse and the status is 429, not 400,
    when the client has been served less than the window before.  And a body
    that is the JSON text [null] has no member ingredients either: reading
    the member throws and the status is 500. *)
Lemma missing_ingredients_not_400 :
  RefJSON.parse "not json" = None ∧
  status (handler RefJSON.parse (Fixture.post "not json") Fixture.env Fixture.now
            (Fixture.provider Fixture.recipe)
            (<["203.0.113.7" := Fixture.now - 1000]> ∅)).1.1 = 429 ∧
  RefJSON.parse "null" = Some VNull ∧
  handler RefJSON.parse (Fixture.post "null") Fixture.env Fixture.now
    (Fixture.provider Fixture.recipe) ∅
  = (text_response "Server error" 500, <["203.0.113.7" := Fixture.now]> ∅, []).
Proof. repeat split; by_computation. Qed.

Lemma response_200_is_recipe_suggestion_witness :
  status (handler RefJSON.parse (Fixture.post Fixture.ingredients_body) Fixture.env
            Fixture.now (Fixture.provider Fixture.recipe) ∅).1.1 = 200 ∧
  ∃ text parsed out,
    provider_content RefJSON.parse (Fixture.post Fixture.ingredients_body)
      Fixture.env (Fixture.provider Fixture.recipe) text ∧
    parse_content RefJSON.parse text = Some parsed ∧
    (handler RefJSON.parse (Fixture.post Fixture.ingredients_body) Fixture.env
       Fixture.now (Fixture.provider Fixture.recipe) ∅).1.1 = json_response out ∧
    recipe_suggestion parsed out.
Proof.
  assert (H200 : status (handler RefJSON.parse (Fixture.post Fixture.ingredients_body)
                           Fixture.env Fixture.now
                           (Fixture.provider Fixture.recipe) ∅).1.1 = 200).
  { apply (proj1 (response_200_is_recipe_suggestion RefJSON.parse
                    (Fixture.post Fixture.ingredients_body) Fixture.env Fixture.now
                    (Fixture.provider Fixture.recipe) ∅) Fixture.recipe
                 [("title", VStr "Spinach Rice Skillet");
                  ("intro", VStr "A quick one-pan dish.");
                  ("steps", VArr [VStr "Heat oil in a pan until shimmering";
                                  VStr "Add rice and spinach, stir until spinach wilts"]);
                  ("optional", VArr [VStr "garlic if you have it"]);
                  ("note", VStr "Balance with salt to taste.")]).
    - reflexivity.
    - apply fixture_allowed.
    - content_by_computation.
    - by_computation.
    - split; repeat constructor; intros elems [= <-]; repeat constructor. }
  split; [exact H200|].
  exact (proj2 (response_200_is_recipe_suggestion RefJSON.parse
                  (Fixture.post Fixture.ingredients_body) Fixture.env Fixture.now
                  (Fixture.provider Fixture.recipe) ∅) H200).
Defined.

(** The scenario of the specification: the optional entry gets the prefix
    and the other members pass through. *)
Example scenario_spinach_rice :
  (handler RefJSON.parse (Fixture.post Fixture.ingredients_body) Fixture.env
     Fixture.now (Fixture.provider Fixture.recipe) ∅).1.1
  = json_response
      (VObj [("title", VStr "Spinach Rice Skillet");
             ("intro", VStr "A quick one-pan dish.");
             ("steps", VArr [VStr "Heat oil in a pan until shimmering";
                             VStr "Add rice and spinach, stir until spinach wilts"]);
             ("optional", VArr [VStr "Optional: garlic if you have it"]);
             ("note", VStr "Balance with salt to taste.")]).
Proof. by_computation. Qed.

(** C2 (as stated).  The content parses to an object, the response is a 200,
    and its one optional entry has 221 characters: the 211 of the entry
    behind the 10 of the prefix. *)
Lemma optional_entry_exceeds_220 :
  RefJSON.parse Fixture.long_optional
  = Some (VObj [("optional", VArr [VStr (str_repeat 211 "a")])]) ∧
  (handler RefJSON.parse (Fixture.post Fixture.ingredients_body) Fixture.env
     Fixture.now (Fixture.provider Fixture.long_optional) ∅).1.1
  = json_response
      (VObj [("title", VStr ""); ("intro", VStr ""); ("steps", VArr []);
             ("optional", VArr [VStr ("Optional: " +:+ str_repeat 211 "a")]);
             ("note", VStr "")]) ∧
  String.length ("Optional: " +:+ str_repeat 211 "a") = 221%nat.
Proof. repeat split; by_computation. Qed.

Lemma fallback_recovers_trailing_object_witness :
  RefJSON.parse ("Here you go: " +:+ Fixture.titled) = None ∧
  match_trailing_object ("Here you go: " +:+ Fixture.titled) = Some Fixture.titled ∧
  parse_content RefJSON.parse ("Here you go: " +:+ Fixture.titled)
  = Some (VObj [("title", VStr "Rice")]) ∧
  (handler RefJSON.parse (Fixture.post Fixture.ingredients_body) Fixture.env
     Fixture.now (Fixture.provider ("Here you go: " +:+ Fixture.titled)) ∅).1.1
  = json_response
      (VObj [("title", VStr "Rice"); ("intro", VStr ""); ("steps", VArr []);
             ("optional", VArr []); ("note", VStr "")]) ∧
  (handler RefJSON.parse (Fixture.post Fixture.ingredients_body) Fixture.env
     Fixture.now (Fixture.provider "Sorry, I have no recipe for that.") ∅).1.1
  = text_response "Server error" 500.
Proof.
  destruct (fallback_recovers_trailing_object RefJSON.parse
              (Fixture.post Fixture.ingredients_body) Fixture.env Fixture.now
              (Fixture.provider ("Here you go: " +:+ Fixture.titled)) ∅
              eq_refl (fixture_allowed _)) as [Hrec _].
  destruct (Hrec "Here you go: " Fixture.titled (VObj [("title", VStr "Rice")]))
    as (Hmatch & Hparse & Hresp);
    [content_by_computation|by_computation..|].
  destruct (fallback_recovers_trailing_object RefJSON.parse
              (Fixture.post Fixture.ingredients_body) Fixture.env Fixture.now
              (Fixture.provider "Sorry, I have no recipe for that.") ∅
              eq_refl (fixture_allowed _)) as [_ Hnone].
  split; [by_computation|].
  split; [exact Hmatch|]. split; [exact Hparse|]. split; [exact Hresp|].
  apply (Hnone "Sorry, I have no recipe for that.");
    [content_by_computation|by_computation].
Defined.

(** C3 (as stated).  The content is not JSON, it ends with the text of a
    JSON object behind a sentence that is not JSON, and the sentence has an
    opening brace: the match starts there, its parse fails, and the handler
    answers with status 500 instead of sanitizing the object. *)
Lemma fallback_stops_at_first_brace :
  RefJSON.parse (Fixture.braces_before +:+ Fixture.titled) = None ∧
  RefJSON.parse Fixture.titled = Some (VObj [("title", VStr "Rice")]) ∧
  match_trailing_object (Fixture.braces_before +:+ Fixture.titled)
  = Some ("{ingredients} here: " +:+ Fixture.titled) ∧
  parse_content RefJSON.parse (Fixture.braces_before +:+ Fixture.titled) = None ∧
  (handler RefJSON.parse (Fixture.post Fixture.ingredients_body) Fixture.env
     Fixture.now (Fixture.provider (Fixture.braces_before +:+ Fixture.titled)) ∅).1.1
  = text_response "Server error" 500.
Proof. repeat split; by_computation. Qed.

Lemma null_500_primitive_200_witness :
  (handler RefJSON.parse (Fixture.post Fixture.ingredients_body) Fixture.env
     Fixture.now (Fixture.provider "null") ∅).1.1
  = text_response "Server error" 500 ∧
  (handler RefJSON.parse (Fixture.post Fixture.ingredients_body) Fixture.env
     Fixture.now (Fixture.provider "42") ∅).1.1
  = json_response empty_suggestion.
Proof.
  split.
  - refine (proj1 (null_500_primitive_200 RefJSON.parse
                     (Fixture.post Fixture.ingredients_body) Fixture.env Fixture.now
                     (Fixture.provider "null") ∅ "null"
                     eq_refl (fixture_allowed _) _) _);
      [content_by_computation|by_computation].
  - refine (proj2 (null_500_primitive_200 RefJSON.parse
                     (Fixture.post Fixture.ingredients_body) Fixture.env Fixture.now
                     (Fixture.provider "42") ∅ "42"
                     eq_refl (fixture_allowed _) _) (VNum (NumOther "42")) _ _);
      [content_by_computation|by_computation|].
    left. eexists. reflexivity.
Defined.

(** * Further properties of the code *)

(** ** Trimming and the prompt *)

Lemma length_trim_start (s : string) :
  (String.length (trim_start s) ≤ String.length s)%nat.
Proof.
  induction s as [|c s IH]; simpl; [lia|].
  destruct (is_js_space c); simpl; lia.
Qed.

Lemma length_trim_end (s : string) :
  (String.length (trim_end s) ≤ String.length s)%nat.
Proof.
  induction s as [|c s IH]; simpl; [lia|].
  destruct (is_js_space c && is_empty (trim_end s)); simpl; lia.
Qed.

Lemma length_trim (s : string) : (String.length (trim s) ≤ String.length s)%nat.
Proof.
  unfold trim. pose proof (length_trim_end (trim_start s)).
  pose proof (length_trim_start s). lia.
Qed.

Lemma trim_start_no_leading_space (s : string) : no_leading_space (trim_start s) = true.
Proof.
  induction s as [|c s IH]; simpl; [reflexivity|].
  destruct (is_js_space c) eqn:E; [exact IH|]. simpl. now rewrite E.
Qed.

Lemma trim_start_fixed (s : string) : no_leading_space s = true → trim_start s = s.
Proof.
  destruct s as [|c s]; simpl; [reflexivity|].
  now destruct (is_js_space c).
Qed.

Lemma trim_end_no_leading_space (s : string) :
  no_leading_space s = true → no_leading_space (trim_end s) = true.
Proof.
  destruct s as [|c s]; simpl; [reflexivity|].
  destruct (is_js_space c) eqn:E; [discriminate|]. simpl. now rewrite E.
Qed.

Lemma trim_end_idempotent (s : string) : trim_end (trim_end s) = trim_end s.
Proof.
  induction s as [|c s IH]; simpl; [reflexivity|].
  destruct (is_js_space c && is_empty (trim_end s)) eqn:E; [reflexivity|].
  simpl. now rewrite IH, E.
Qed.

Lemma trim_idempotent (s : string) : trim (trim s) = trim s.
Proof.
  unfold trim. rewrite (trim_start_fixed (trim_end _)).
  - apply trim_end_idempotent.
  - apply trim_end_no_leading_space, trim_start_no_leading_space.
Qed.

Lemma trim_end_app (s t : string) :
  is_empty (trim_end t) = false → trim_end (s +:+ t) = s +:+ trim_end t.
Proof.
  intros H. induction s as [|c s IH]; [reflexivity|].
  rewrite !app_String. simpl. rewrite IH.
  assert (E : is_empty (s +:+ trim_end t) = false).
  { destruct s; [exact H|reflexivity]. }
  rewrite E, andb_false_r. reflexivity.
Qed.

(** X1.  The user message of the outbound call is the fixed heading, the
    input on a line of its own, an empty line and the fixed closing
    instruction: the trimming of the template removes its first and last
    line break and nothing of the input, whatever the input is.  The system
    message is the same for every input. *)
Theorem user_message_embeds_input (apiKey userInput : string) :
  user userInput
  = "User ingredients/notes:" +:+ nl +:+ userInput +:+ nl +:+ nl +:+ "Return JSON only." ∧
  messages (build_request apiKey userInput)
  = [("system", system);
     ("user", "User ingredients/notes:" +:+ nl +:+ userInput +:+ nl +:+ nl
              +:+ "Return JSON only.")].
Proof.
  assert (E : user userInput
              = "User ingredients/notes:" +:+ nl +:+ userInput +:+ nl +:+ nl
                +:+ "Return JSON only.").
  { unfold user, trim.
    change (trim_start (nl +:+ lines ["User ingredients/notes:"; userInput; "";
                                      "Return JSON only."]))
      with ("User ingredients/notes:" +:+
            (nl +:+ (userInput +:+ (nl +:+ nl +:+ "Return JSON only." +:+ nl)))).
    assert (H1 : trim_end (userInput +:+ (nl +:+ nl +:+ "Return JSON only." +:+ nl))
                 = userInput +:+ (nl +:+ nl +:+ "Return JSON only."))
      by (rewrite trim_end_app; reflexivity).
    assert (H2 : is_empty (userInput +:+ (nl +:+ nl +:+ "Return JSON only.")) = false)
      by (destruct userInput; reflexivity).
    rewrite trim_end_app.
    - rewrite (trim_end_app nl) by now rewrite H1. now rewrite H1.
    - rewrite (trim_end_app nl) by now rewrite H1. reflexivity. }
  split; [exact E|]. unfold build_request. simpl. now rewrite E.
Qed.

Section Stability.

Context {engine : Engine}.

(** X2.  What the sanitizer returns for a cap that is not negative is a
    prefix of the string conversion of a truthy value, and the sanitizer
    returns it unchanged when applied to it again with the same or a larger
    cap. *)
Theorem safeString_prefix_and_stable (x : value) (max : Z) (r : string) :
  safeString x max = Some r →
  0 ≤ max →
  (ToBoolean x = true → ∃ full, ToString x = Some full ∧ String.prefix r full = true) ∧
  (∀ max', max ≤ max' → safeString (VStr r) max' = Some r).
Proof.
  intros Hr Hmax. split.
  - intros Ht. rewrite safeString_truthy in Hr by exact Ht.
    destruct (ToString x) as [full|]; [|discriminate].
    injection Hr as <-. exists full. split; [reflexivity|apply slice0_prefix].
  - intros max' Hle. rewrite safeString_str. f_equal.
    apply slice0_short. apply safeString_length in Hr; lia.
Qed.

End Stability.

Lemma safeString_prefix_and_stable_witness :
  safeString (VStr "spinach") 4 = Some "spin" ∧
  (∃ full, ToString (VStr "spinach") = Some full ∧ String.prefix "spin" full = true) ∧
  safeString (VStr "spin") 4 = Some "spin" ∧
  safeString (VStr "spin") 220 = Some "spin".
Proof.
  destruct (safeString_prefix_and_stable (VStr "spinach") 4 "spin" eq_refl)
    as [Hp Hs]; [lia|].
  split; [reflexivity|]. split; [apply Hp; reflexivity|].
  split; apply Hs; lia.
Defined.

(** ** The map of the rate limiter *)

#[local] Set Warnings "-clear-no-such-hyp".

Lemma rateLimit_other (ip ip' : string) (w now : Z) (recent : gmap string Z) :
  ip' ≠ ip → (rateLimit ip w now recent).2 !! ip' = recent !! ip'.
Proof.
  intros Hne. destruct (rateLimit_cases ip w now recent) as [[_ ->]|[_ ->]]; simpl;
    [now rewrite lookup_insert_ne|reflexivity].
Qed.

Lemma rateLimit_dom (ip : string) (w now : Z) (recent : gmap string Z) :
  dom recent ⊆ dom (rateLimit ip w now recent).2 ∧
  dom (rateLimit ip w now recent).2 ⊆ dom recent ∪ {[ip]}.
Proof.
  destruct (rateLimit_cases ip w now recent) as [[_ ->]|[_ ->]]; simpl.
  - rewrite dom_insert_L. set_solver.
  - set_solver.
Qed.

(** X3.  The limiter never deletes an entry, and the only entries it creates
    are for identifiers it was called with: over any sequence of calls the
    identifiers of the map grow, within those of the calls. *)
Theorem rateLimit_run_dom (calls : list (string * Z * Z)) (recent : gmap string Z) :
  dom recent ⊆ dom (rateLimit_run calls recent) ∧
  dom (rateLimit_run calls recent) ⊆ dom recent ∪ list_to_set ((λ c, c.1.1) <$> calls).
Proof.
  revert recent. induction calls as [|[[ip w] now] rest IH]; intros recent; simpl.
  - set_solver.
  - destruct (IH (rateLimit ip w now recent).2) as [IH1 IH2].
    destruct (rateLimit_dom ip w now recent) as [H1 H2].
    split; set_solver.
Qed.

(** X4.  Requests that are denied do not postpone the next allowed one: when
    every call for an identifier comes less than its window after the
    recorded time stamp, the time stamp stays whatever other identifiers do,
    and a call that comes at least its window after it is allowed. *)
Theorem denied_calls_keep_time_stamp (calls : list (string * Z * Z))
    (recent : gmap string Z) (ip : string) (t : Z) :
  recent !! ip = Some t →
  Forall (λ c, c.1.1 = ip → c.2 - t < c.1.2) calls →
  rateLimit_run calls recent !! ip = Some t ∧
  ∀ w now, w ≤ now - t → (rateLimit ip w now (rateLimit_run calls recent)).1 = true.
Proof.
  intros Ht Hcalls.
  assert (Hrun : rateLimit_run calls recent !! ip = Some t).
  { revert recent Ht. induction Hcalls as [|[[ip' w] now] rest Hc _ IH];
      intros recent Ht; [exact Ht|].
    simpl in *. apply IH. destruct (decide (ip' = ip)) as [->|Hne].
    - rewrite rateLimit_denied; [exact Ht|]. rewrite Ht. simpl. auto.
    - rewrite rateLimit_other by congruence. exact Ht. }
  split; [exact Hrun|].
  intros w now Hw. apply rateLimit_allowed_iff. rewrite Hrun. exact Hw.
Qed.

Lemma denied_calls_keep_time_stamp_witness :
  rateLimit_run [("a", 2500, 1000002000); ("b", 2500, 1000002100);
                 ("a", 2500, 1000002400)] {["a" := 1000000000]} !! "a"
  = Some 1000000000 ∧
  (rateLimit "a" 2500 1000002500
     (rateLimit_run [("a", 2500, 1000002000); ("b", 2500, 1000002100);
                     ("a", 2500, 1000002400)] {["a" := 1000000000]})).1 = true.
Proof.
  destruct (denied_calls_keep_time_stamp
              [("a", 2500, 1000002000); ("b", 2500, 1000002100); ("a", 2500, 1000002400)]
              {["a" := 1000000000]} "a" 1000000000) as [Hkeep Hnext].
  - reflexivity.
  - repeat constructor; simpl; intros; try lia; discriminate.
  - split; [exact Hkeep|]. apply Hnext. lia.
Defined.

(** ** The paths through the handler *)

Lemma or_string_nonempty (a : option string) (b : string) :
  is_empty b = false → is_empty (or_string a b) = false.
Proof.
  intros Hb. destruct a as [s|]; simpl; [|exact Hb].
  destruct (is_empty s) eqn:E; [exact Hb|exact E].
Qed.

Section Paths.

Context {engine : Engine}.
Variable JSON_parse : string → option value.

Implicit Types (req : Request) (env : Env) (fetch : chat_request → fetch_result).
Implicit Types (recent : gmap string Z) (now : Z).

Lemma after_fetch_cases (r : fetch_result) :
  after_fetch JSON_parse r = None ∨
  (∃ t, after_fetch JSON_parse r = Some (text_response t 502) ∧ is_empty t = false) ∨
  ∃ out, after_fetch JSON_parse r = Some (json_response out).
Proof.
  destruct r as [|[|] text]; simpl.
  - now left.
  - destruct (text ≫= JSON_parse) as [json|]; simpl; [|now left].
    destruct (extract_content json) as [content|]; simpl; [|now left].
    unfold respond_content.
    destruct (parse_content JSON_parse content) as [parsed|]; simpl; [|now left].
    destruct (sanitize_output parsed) as [out|]; simpl; [|now left].
    right. right. now exists out.
  - right. left. eexists. split; [reflexivity|]. now apply or_string_nonempty.
Qed.

(** The body of the handler behind the rate limit either stops before the
    outbound call, with an exception or one of two responses, or makes the
    call and goes on with its result. *)
Lemma process_cases req env fetch :
  process JSON_parse req env fetch = (None, []) ∨
  process JSON_parse req env fetch = (Some (text_response "Missing ingredients" 400), []) ∨
  process JSON_parse req env fetch
  = (Some (text_response "Server missing OPENAI_API_KEY" 500), []) ∨
  ∃ ingredients s apiKey,
    get_member (default (VObj []) (JSON_parse (body req))) "ingredients"
      = Some ingredients ∧
    safeString ingredients 700 = Some s ∧
    is_empty (trim s) = false ∧
    OPENAI_API_KEY env = Some apiKey ∧
    is_empty apiKey = false ∧
    process JSON_parse req env fetch
    = (after_fetch JSON_parse (fetch (build_request apiKey (trim s))),
       [build_request apiKey (trim s)]).
Proof.
  unfold process.
  destruct (get_member _ "ingredients") as [ing|] eqn:Hing; [|now left].
  destruct (safeString ing 700) as [s|] eqn:Hs; [|now left].
  destruct (is_empty (trim s)) eqn:Hne; [right; now left|].
  destruct (OPENAI_API_KEY env) as [[|c k]|] eqn:Hk;
    try (right; right; now left).
  right. right. right. exists ing, s, (String c k). repeat split; auto.
Qed.

Lemma process_status req env fetch (r : Response) :
  (process JSON_parse req env fetch).1 = Some r → status r ∈ [200; 400; 500; 502].
Proof.
  destruct (process_cases req env fetch)
    as [->|[->|[->|(ing & s & k & _ & _ & _ & _ & _ & ->)]]]; simpl.
  - discriminate.
  - intros [= <-]. simpl. set_solver.
  - intros [= <-]. simpl. set_solver.
  - destruct (after_fetch_cases (fetch (build_request k (trim s))))
      as [->|[(t & -> & _)|(out & ->)]]; [discriminate|..];
      intros [= <-]; simpl; set_solver.
Qed.

Lemma handler_allowed_status req env now fetch recent :
  method req = "POST" →
  rateLimit_default_window ≤ now - default 0 (recent !! client_ip req) →
  status (handler JSON_parse req env now fetch recent).1.1 ∈ [200; 400; 500; 502].
Proof.
  intros Hm Hle. rewrite handler_allowed by assumption. simpl.
  destruct (process JSON_parse req env fetch).1 as [r|] eqn:E; simpl.
  - now apply (process_status req env fetch).
  - set_solver.
Qed.

(** X5.  The first two checks decide two statuses and nothing else does: the
    status is 405 exactly when the method is not POST, and 429 exactly when
    the method is POST and the client's recorded time stamp (0 when there is
    none) is less than the window before the current time.  In both cases
    the map is unchanged and no outbound call is made. *)
Theorem gate_statuses req env now fetch recent :
  (status (handler JSON_parse req env now fetch recent).1.1 = 405 ↔ method req ≠ "POST") ∧
  (status (handler JSON_parse req env now fetch recent).1.1 = 429 ↔
   method req = "POST" ∧
   now - default 0 (recent !! client_ip req) < rateLimit_default_window) ∧
  (status (handler JSON_parse req env now fetch recent).1.1 ∈ [405; 429] →
   (handler JSON_parse req env now fetch recent).1.2 = recent ∧
   (handler JSON_parse req env now fetch recent).2 = []).
Proof.
  destruct (String.eqb_spec (method req) "POST") as [Hm|Hm].
  - destruct (Z.le_gt_cases rateLimit_default_window
                (now - default 0 (recent !! client_ip req))) as [Hle|Hgt].
    + pose proof (handler_allowed_status req env now fetch recent Hm Hle) as Hst.
      rewrite !elem_of_cons, elem_of_nil in Hst.
      assert (Hn405 : status (handler JSON_parse req env now fetch recent).1.1 ≠ 405)
        by (intros E; rewrite E in Hst; intuition discriminate).
      assert (Hn429 : status (handler JSON_parse req env now fetch recent).1.1 ≠ 429)
        by (intros E; rewrite E in Hst; intuition discriminate).
      split; [split; [intros E; contradiction|intros Hc; contradiction (Hc Hm)]|].
      split; [split; [intros E; contradiction|intros [_ Hlt]; lia]|].
      intros Hin. rewrite !elem_of_cons, elem_of_nil in Hin.
      destruct Hin as [E|[E|[]]]; contradiction.
    + rewrite handler_denied by assumption. simpl.
      split; [split; [discriminate|intros Hc; contradiction (Hc Hm)]|].
      split; [split; [intros _; split; [exact Hm|exact Hgt]|reflexivity]|].
      intros _. split; reflexivity.
  - rewrite handler_not_post by assumption. simpl.
    split; [split; [intros _; exact Hm|reflexivity]|].
    split; [split; [discriminate|intros [Hc _]; contradiction]|].
    intros _. split; reflexivity.
Qed.

Lemma handler_cases req env now fetch recent :
  (method req ≠ "POST" ∧
   handler JSON_parse req env now fetch recent
   = (text_response "Method Not Allowed" 405, recent, [])) ∨
  (method req = "POST" ∧
   now - default 0 (recent !! client_ip req) < rateLimit_default_window ∧
   handler JSON_parse req env now fetch recent
   = (text_response "Too many requests. Please slow down." 429, recent, [])) ∨
  (method req = "POST" ∧
   rateLimit_default_window ≤ now - default 0 (recent !! client_ip req) ∧
   handler JSON_parse req env now fetch recent
   = (default (text_response "Server error" 500) (process JSON_parse req env fetch).1,
      <[client_ip req := now]> recent,
      (process JSON_parse req env fetch).2)).
Proof.
  destruct (String.eqb_spec (method req) "POST") as [Hm|Hm].
  - destruct (Z.le_gt_cases rateLimit_default_window
                (now - default 0 (recent !! client_ip req))) as [Hle|Hgt].
    + right. right. auto using handler_allowed.
    + right. left. auto using handler_denied.
  - left. auto using handler_not_post.
Qed.

(** X6.  Every response is one of seven: five fixed plain texts with the
    statuses 405, 429, 400, 500 and 500, the 502 whose text is the error
    text of the provider, or a fixed text when the provider gave none, and
    the 200 with a JSON body.  Nothing else of the server reaches the
    client. *)
Theorem response_classification req env now fetch recent :
  (handler JSON_parse req env now fetch recent).1.1
  ∈ [text_response "Method Not Allowed" 405;
     text_response "Too many requests. Please slow down." 429;
     text_response "Missing ingredients" 400;
     text_response "Server missing OPENAI_API_KEY" 500;
     text_response "Server error" 500] ∨
  (∃ call text,
     (handler JSON_parse req env now fetch recent).2 = [call] ∧
     fetch call = HttpResponse false text ∧
     (handler JSON_parse req env now fetch recent).1.1
     = text_response (or_string text "OpenAI request failed") 502 ∧
     is_empty (or_string text "OpenAI request failed") = false) ∨
  (∃ out,
     (handler JSON_parse req env now fetch recent).1.1 = json_response out).
Proof.
  destruct (handler_cases req env now fetch recent)
    as [[_ ->]|[(_ & _ & ->)|(_ & _ & ->)]]; simpl.
  - left. set_solver.
  - left. set_solver.
  - destruct (process_cases req env fetch)
      as [->|[->|[->|(ing & s & k & _ & _ & _ & _ & _ & ->)]]]; simpl;
      try (left; set_solver).
    destruct (fetch (build_request k (trim s))) as [|[|] text] eqn:Hf.
    + left. simpl. set_solver.
    + destruct (after_fetch_cases (HttpResponse true text))
        as [->|[(t & E & _)|(out & ->)]]; simpl.
      * left. set_solver.
      * simpl in E.
        destruct (text ≫= JSON_parse) as [json|]; simpl in E; [|discriminate].
        destruct (extract_content json) as [c|]; simpl in E; [|discriminate].
        unfold respond_content in E.
        destruct (parse_content JSON_parse c) as [p|]; simpl in E; [|discriminate].
        destruct (sanitize_output p); discriminate.
      * right. right. now exists out.
    + right. left. exists (build_request k (trim s)), text. simpl.
      repeat split; auto. now apply or_string_nonempty.
Qed.

(** X7.  A request makes at most one outbound call.  The call is made only
    for a POST that passed the rate limit, with the configured key, which is
    not empty, and with an input that is not empty, has at most 700
    characters and no white space at either end.  A response with status
    400, 405 or 429 comes without a call, one with status 200 or 502 with
    exactly one. *)
Theorem outbound_call_spec req env now fetch recent :
  ((handler JSON_parse req env now fetch recent).2 = [] ∨
   ∃ ingredients s apiKey,
     method req = "POST" ∧
     (rateLimit (client_ip req) rateLimit_default_window now recent).1 = true ∧
     get_member (default (VObj []) (JSON_parse (body req))) "ingredients"
       = Some ingredients ∧
     safeString ingredients 700 = Some s ∧
     OPENAI_API_KEY env = Some apiKey ∧
     is_empty apiKey = false ∧
     is_empty (trim s) = false ∧
     (String.length (trim s) ≤ 700)%nat ∧
     trim (trim s) = trim s ∧
     (handler JSON_parse req env now fetch recent).2 = [build_request apiKey (trim s)]) ∧
  (status (handler JSON_parse req env now fetch recent).1.1 ∈ [400; 405; 429] →
   (handler JSON_parse req env now fetch recent).2 = []) ∧
  (status (handler JSON_parse req env now fetch recent).1.1 ∈ [200; 502] →
   length (handler JSON_parse req env now fetch recent).2 = 1%nat).
Proof.
  destruct (handler_cases req env now fetch recent)
    as [[_ ->]|[(_ & _ & ->)|(Hm & Hle & ->)]]; simpl.
  - split; [now left|]. split; [reflexivity|].
    rewrite !elem_of_cons, elem_of_nil. intuition discriminate.
  - split; [now left|]. split; [reflexivity|].
    rewrite !elem_of_cons, elem_of_nil. intuition discriminate.
  - destruct (process_cases req env fetch)
      as [->|[->|[->|(ing & s & k & Hing & Hs & Hne & Hk & Hkne & ->)]]]; simpl;
      try (split; [now left|]; split; [reflexivity|];
           rewrite !elem_of_cons, elem_of_nil; intuition discriminate).
    split; [|split; [|reflexivity]].
    + right. exists ing, s, k. repeat split; auto.
      * now apply rateLimit_allowed_iff.
      * pose proof (length_trim s). apply safeString_length in Hs; lia.
      * apply trim_idempotent.
    + destruct (after_fetch_cases (fetch (build_request k (trim s))))
        as [->|[(t & -> & _)|(out & ->)]]; simpl;
        rewrite !elem_of_cons, elem_of_nil; intuition discriminate.
Qed.

(** X8.  Without a configured key, or with an empty one, a POST that passed
    the rate limit and carries ingredients gets the 500 response that names
    the missing configuration, and no outbound call is made. *)
Theorem missing_api_key_500 req env now fetch recent (ingredients : value) (s : string) :
  method req = "POST" →
  (rateLimit (client_ip req) rateLimit_default_window now recent).1 = true →
  get_member (default (VObj []) (JSON_parse (body req))) "ingredients" = Some ingredients →
  safeString ingredients 700 = Some s →
  is_empty (trim s) = false →
  OPENAI_API_KEY env = None ∨ OPENAI_API_KEY env = Some "" →
  handler JSON_parse req env now fetch recent
  = (text_response "Server missing OPENAI_API_KEY" 500,
     <[client_ip req := now]> recent, []).
Proof.
  intros Hm Hle%rateLimit_allowed_iff Hing Hs Hne Hk.
  rewrite handler_allowed by assumption.
  unfold process. rewrite Hing, Hs, Hne. now destruct Hk as [-> | ->].
Qed.

(** X9.  When the provider answers without success, the response is the 502
    with the provider's text as it is, or with a fixed text when the
    provider's text is empty or cannot be read; the text is not parsed. *)
Theorem provider_failure_502 req env now fetch recent
    (ingredients : value) (s apiKey : string) (text : option string) :
  method req = "POST" →
  (rateLimit (client_ip req) rateLimit_default_window now recent).1 = true →
  get_member (default (VObj []) (JSON_parse (body req))) "ingredients" = Some ingredients →
  safeString ingredients 700 = Some s →
  is_empty (trim s) = false →
  OPENAI_API_KEY env = Some apiKey →
  is_empty apiKey = false →
  fetch (build_request apiKey (trim s)) = HttpResponse false text →
  handler JSON_parse req env now fetch recent
  = (text_response (or_string text "OpenAI request failed") 502,
     <[client_ip req := now]> recent, [build_request apiKey (trim s)]) ∧
  (∀ t, text = Some t → is_empty t = false → or_string text "OpenAI request failed" = t) ∧
  (text = None ∨ text = Some "" →
   or_string text "OpenAI request failed" = "OpenAI request failed").
Proof.
  intros Hm Hle%rateLimit_allowed_iff Hing Hs Hne Hk Hkne Hf.
  split; [|split].
  - rewrite handler_allowed by assumption.
    unfold process. rewrite Hing, Hs, Hne, Hk.
    destruct apiKey as [|c k]; [discriminate|]. rewrite Hf. reflexivity.
  - intros t -> Ht. simpl. now rewrite Ht.
  - now intros [-> | ->].
Qed.

(** X10.  When the call to the provider is rejected, or its successful answer
    cannot be read, is not JSON, or has a content that is neither missing nor
    a string, the response is the generic 500; the call has been made and
    the time stamp recorded. *)
Theorem provider_unusable_500 req env now fetch recent
    (ingredients : value) (s apiKey : string) :
  method req = "POST" →
  (rateLimit (client_ip req) rateLimit_default_window now recent).1 = true →
  get_member (default (VObj []) (JSON_parse (body req))) "ingredients" = Some ingredients →
  safeString ingredients 700 = Some s →
  is_empty (trim s) = false →
  OPENAI_API_KEY env = Some apiKey →
  is_empty apiKey = false →
  fetch (build_request apiKey (trim s)) = NetworkError ∨
  fetch (build_request apiKey (trim s)) = HttpResponse true None ∨
  (∃ answer, fetch (build_request apiKey (trim s)) = HttpResponse true (Some answer) ∧
             (JSON_parse answer = None ∨
              ∃ json, JSON_parse answer = Some json ∧ extract_content json = None)) →
  handler JSON_parse req env now fetch recent
  = (text_response "Server error" 500,
     <[client_ip req := now]> recent, [build_request apiKey (trim s)]).
Proof.
  intros Hm Hle%rateLimit_allowed_iff Hing Hs Hne Hk Hkne Hf.
  rewrite handler_allowed by assumption.
  unfold process. rewrite Hing, Hs, Hne, Hk.
  destruct apiKey as [|c k]; [discriminate|].
  destruct Hf as [->|[->|(answer & -> & [Hj|(json & Hj & Hc)])]]; simpl;
    try reflexivity; rewrite Hj; simpl; try reflexivity.
  now rewrite Hc.
Qed.

(** X11.  The key enters the outbound call and nothing else: with two keys
    that are not empty and a provider that answers the two calls alike, the
    response and the map are the same. *)
Theorem response_independent_of_key req now recent
    (env1 env2 : Env) (fetch1 fetch2 : chat_request → fetch_result) (k1 k2 : string) :
  OPENAI_API_KEY env1 = Some k1 → is_empty k1 = false →
  OPENAI_API_KEY env2 = Some k2 → is_empty k2 = false →
  (∀ userInput, fetch1 (build_request k1 userInput) = fetch2 (build_request k2 userInput)) →
  (handler JSON_parse req env1 now fetch1 recent).1
  = (handler JSON_parse req env2 now fetch2 recent).1.
Proof.
  intros H1 Hn1 H2 Hn2 Hf. unfold handler.
  destruct (negb (String.eqb (method req) "POST")); [reflexivity|].
  destruct (rateLimit _ _ _ _) as [allowed recent'].
  destruct (negb allowed); [reflexivity|].
  unfold process. rewrite H1, H2.
  destruct k1 as [|c1 k1]; [discriminate|]. destruct k2 as [|c2 k2]; [discriminate|].
  destruct (get_member _ "ingredients") as [ing|]; [|reflexivity].
  destruct (safeString ing 700) as [s|]; [|reflexivity].
  destruct (is_empty (trim s)); [reflexivity|].
  now rewrite Hf.
Qed.

Lemma handler_own_entry req env now fetch (recent1 recent2 : gmap string Z) :
  recent1 !! client_ip req = recent2 !! client_ip req →
  (handler JSON_parse req env now fetch recent1).1.1
  = (handler JSON_parse req env now fetch recent2).1.1 ∧
  (handler JSON_parse req env now fetch recent1).2
  = (handler JSON_parse req env now fetch recent2).2.
Proof.
  intros H. unfold handler, rateLimit. rewrite H.
  destruct (negb (String.eqb (method req) "POST")); [split; reflexivity|].
  destruct (now - default 0 (recent2 !! client_ip req) <? rateLimit_default_window);
    simpl; [split; reflexivity|].
  destruct (process JSON_parse req env fetch). split; reflexivity.
Qed.

Lemma handler_other_entry req env now fetch recent (ip : string) :
  ip ≠ client_ip req →
  (handler JSON_parse req env now fetch recent).1.2 !! ip = recent !! ip.
Proof.
  intros Hne. destruct (handler_cases req env now fetch recent)
    as [[_ ->]|[(_ & _ & ->)|(_ & _ & ->)]]; simpl; try reflexivity.
  now rewrite lookup_insert_ne.
Qed.

(** X12.  A request changes the map at most at the entry of its own client:
    every other entry stays, the map is unchanged when the status is 405 or
    429, and otherwise the client's entry is the current time. *)
Theorem handler_updates_own_entry req env now fetch recent :
  (∀ ip, ip ≠ client_ip req →
         (handler JSON_parse req env now fetch recent).1.2 !! ip = recent !! ip) ∧
  (status (handler JSON_parse req env now fetch recent).1.1 ∈ [405; 429] →
   (handler JSON_parse req env now fetch recent).1.2 = recent) ∧
  (status (handler JSON_parse req env now fetch recent).1.1 ∉ [405; 429] →
   (handler JSON_parse req env now fetch recent).1.2 = <[client_ip req := now]> recent).
Proof.
  split; [intros ip; apply handler_other_entry|].
  destruct (handler_cases req env now fetch recent)
    as [[_ ->]|[(_ & _ & ->)|(Hm & Hle & E)]]; simpl.
  - split; [reflexivity|]. rewrite !elem_of_cons. intros H. contradict H. now left.
  - split; [reflexivity|]. rewrite !elem_of_cons. intros H. contradict H. right. now left.
  - pose proof (handler_allowed_status req env now fetch recent Hm Hle) as Hst.
    split; [|intros _; now rewrite E].
    intros Hin. exfalso.
    rewrite !elem_of_cons, elem_of_nil in Hin.
    rewrite !elem_of_cons, elem_of_nil in Hst.
    destruct Hin as [Hin|[Hin|[]]]; rewrite Hin in Hst; intuition discriminate.
Qed.

(** X13.  Clients do not affect each other: what a request is answered, and
    the call it makes, is the same before and after any request of a client
    with another identifier. *)
Theorem other_clients_do_not_interfere req env now fetch
    req' env' now' fetch' recent :
  client_ip req' ≠ client_ip req →
  (handler JSON_parse req env now fetch
     (handler JSON_parse req' env' now' fetch' recent).1.2).1.1
  = (handler JSON_parse req env now fetch recent).1.1 ∧
  (handler JSON_parse req env now fetch
     (handler JSON_parse req' env' now' fetch' recent).1.2).2
  = (handler JSON_parse req env now fetch recent).2.
Proof.
  intros Hne. apply handler_own_entry. apply handler_other_entry. congruence.
Qed.

(** X14.  After a POST of a client has passed the rate limit at some time, a
    later POST of the same client is answered 429 exactly when it comes less
    than the window after that time. *)
Theorem cooldown_boundary req env now fetch recent req' env' now' fetch' :
  method req = "POST" →
  (rateLimit (client_ip req) rateLimit_default_window now recent).1 = true →
  method req' = "POST" →
  client_ip req' = client_ip req →
  (status (handler JSON_parse req' env' now' fetch'
             (handler JSON_parse req env now fetch recent).1.2).1.1 = 429
   ↔ now' - now < rateLimit_default_window).
Proof.
  intros Hm Hle%rateLimit_allowed_iff Hm' Hip.
  rewrite (handler_allowed _ req) by assumption. simpl.
  assert (Hlast : default 0 (<[client_ip req := now]> recent !! client_ip req') = now)
    by now rewrite Hip, lookup_insert_eq.
  destruct (Z.le_gt_cases rateLimit_default_window (now' - now)) as [Hge|Hlt].
  - pose proof (handler_allowed_status req' env' now' fetch'
                  (<[client_ip req := now]> recent) Hm') as Hst.
    rewrite Hlast in Hst. specialize (Hst Hge).
    rewrite !elem_of_cons, elem_of_nil in Hst.
    split; [intros E; rewrite E in Hst; intuition discriminate|lia].
  - rewrite handler_denied by (rewrite ?Hlast; assumption). simpl.
    split; [intros _; exact Hlt|reflexivity].
Qed.

(** X15.  Clients without an identifying header share one entry: when both
    headers of two POSTs are absent or empty, the second is answered 429 if
    it comes less than the window after the first passed the rate limit. *)
Theorem unidentified_clients_share_entry req env now fetch recent
    req' env' now' fetch' :
  method req = "POST" →
  method req' = "POST" →
  or_string (x_nf_client_connection_ip req) "" = "" →
  or_string (x_forwarded_for req) "" = "" →
  or_string (x_nf_client_connection_ip req') "" = "" →
  or_string (x_forwarded_for req') "" = "" →
  (rateLimit (client_ip req) rateLimit_default_window now recent).1 = true →
  now' - now < rateLimit_default_window →
  client_ip req = "unknown" ∧
  client_ip req' = "unknown" ∧
  handler JSON_parse req' env' now' fetch'
    (handler JSON_parse req env now fetch recent).1.2
  = (text_response "Too many requests. Please slow down." 429,
     <["unknown" := now]> recent, []).
Proof.
  intros Hm Hm' H1 H2 H1' H2' Hle%rateLimit_allowed_iff Hlt.
  assert (Hu : ∀ a b, or_string a "" = "" → or_string b "" = "" →
                      or_string a (or_string b "unknown") = "unknown").
  { intros [[|c a]|] [[|d b]|]; simpl; intros; congruence. }
  assert (E : client_ip req = "unknown") by (apply Hu; assumption).
  assert (E' : client_ip req' = "unknown") by (apply Hu; assumption).
  split; [exact E|]. split; [exact E'|].
  rewrite (handler_allowed _ req) by assumption. simpl. rewrite E.
  apply handler_denied; [exact Hm'|].
  rewrite E', lookup_insert_eq. exact Hlt.
Qed.

End Paths.

(** X16.  The identifier of the client is never empty: it is the connection
    header when that is present and not empty, else the forwarded-for header
    when that is present and not empty, else the text unknown. *)
Theorem client_ip_spec (req : Request) :
  is_empty (client_ip req) = false ∧
  (∀ a, x_nf_client_connection_ip req = Some a → is_empty a = false →
        client_ip req = a) ∧
  (∀ b, or_string (x_nf_client_connection_ip req) "" = "" →
        x_forwarded_for req = Some b → is_empty b = false →
        client_ip req = b) ∧
  (or_string (x_nf_client_connection_ip req) "" = "" →
   or_string (x_forwarded_for req) "" = "" →
   client_ip req = "unknown").
Proof.
  unfold client_ip.
  split; [do 2 apply or_string_nonempty; reflexivity|].
  split; [intros a -> Ha; simpl; now rewrite Ha|].
  split.
  - intros b Ha -> Hb. simpl. rewrite Hb.
    destruct (x_nf_client_connection_ip req) as [[|c a]|]; simpl in *;
      try reflexivity; discriminate.
  - destruct (x_nf_client_connection_ip req) as [[|c a]|],
             (x_forwarded_for req) as [[|d b]|]; simpl; intros; congruence.
Qed.

(** ** The fallback match and the parsed content *)

Lemma from_first_lbrace_split (s m : string) :
  from_first_lbrace s = Some m →
  ∃ pre rest, s = pre +:+ m ∧ from_first_lbrace pre = None ∧ m = String "{" rest.
Proof.
  revert m. induction s as [|c s IH]; simpl; intros m; [discriminate|].
  destruct (Ascii.eqb_spec c "{") as [->|Hc].
  - intros [= <-]. exists "", s. repeat split.
  - intros Hm. destruct (IH m Hm) as (pre & rest & -> & Hpre & ->).
    exists (String c pre), rest. rewrite app_String. simpl.
    destruct (Ascii.eqb_spec c "{"); [contradiction|]. repeat split. exact Hpre.
Qed.

Lemma ends_with_rbrace_app (a b : string) :
  is_empty b = false → ends_with_rbrace (a +:+ b) = ends_with_rbrace b.
Proof.
  intros Hb. induction a as [|c a IH]; [reflexivity|].
  rewrite app_String. simpl. rewrite IH.
  destruct (a +:+ b) eqn:E; [|reflexivity].
  destruct a; [rewrite app_empty in E; subst b; discriminate|discriminate].
Qed.

(** X17.  The fallback matches exactly when the text has an opening brace
    and, behind its first opening brace, ends with a closing brace; the match
    is then the rest of the text from the first opening brace on. *)
Theorem match_trailing_object_spec (text m : string) :
  match_trailing_object text = Some m ↔
  ∃ pre rest,
    text = pre +:+ String "{" rest ∧
    from_first_lbrace pre = None ∧
    ends_with_rbrace rest = true ∧
    m = String "{" rest.
Proof.
  unfold match_trailing_object. split.
  - destruct (from_first_lbrace text) as [[|c r]|] eqn:E; try discriminate.
    destruct (ends_with_rbrace r) eqn:Hend; [|discriminate].
    intros [= <-]. destruct (from_first_lbrace_split _ _ E)
      as (pre & rest & -> & Hpre & [= -> ->]).
    exists pre, rest. repeat split; assumption.
  - intros (pre & rest & -> & Hpre & Hend & ->).
    rewrite from_first_lbrace_app by assumption. simpl. now rewrite Hend.
Qed.

Lemma match_trailing_object_ends (text m : string) :
  match_trailing_object text = Some m → ends_with_rbrace text = true.
Proof.
  unfold match_trailing_object.
  destruct (from_first_lbrace text) as [[|c r]|] eqn:E; try discriminate.
  destruct (ends_with_rbrace r) eqn:Hend; [|discriminate]. intros _.
  destruct (from_first_lbrace_split _ _ E) as (pre & rest & -> & _ & [= -> ->]).
  rewrite ends_with_rbrace_app by reflexivity.
  destruct rest; [discriminate|exact Hend].
Qed.

Section ContentPaths.

Context {engine : Engine}.
Variable JSON_parse : string → option value.

Implicit Types (req : Request) (env : Env) (fetch : chat_request → fetch_result).
Implicit Types (recent : gmap string Z) (now : Z).

(** X18.  A content that is not JSON and does not end with a closing brace
    is answered with the generic 500, whatever it contains: a JSON object
    followed by more text is not recovered. *)
Theorem content_without_closing_brace_500 req env now fetch recent (text : string) :
  method req = "POST" →
  (rateLimit (client_ip req) rateLimit_default_window now recent).1 = true →
  provider_content JSON_parse req env fetch text →
  JSON_parse text = None →
  ends_with_rbrace text = false →
  (handler JSON_parse req env now fetch recent).1.1 = text_response "Server error" 500.
Proof.
  intros Hm Hle%rateLimit_allowed_iff Hc Hnone Hend.
  rewrite (handler_content _ _ _ _ _ _ _ Hm Hle Hc).
  unfold respond_content, parse_content. rewrite Hnone.
  destruct (match_trailing_object text) as [m|] eqn:E; [|reflexivity].
  apply match_trailing_object_ends in E. congruence.
Qed.

(** X19.  An answer of the provider without a first choice gives the empty
    content, and the empty content, which no parser accepts and the fallback
    does not match, is answered with the generic 500. *)
Theorem missing_content_500 req env now fetch recent :
  method req = "POST" →
  (rateLimit (client_ip req) rateLimit_default_window now recent).1 = true →
  provider_content JSON_parse req env fetch "" →
  JSON_parse "" = None →
  (handler JSON_parse req env now fetch recent).1.1 = text_response "Server error" 500 ∧
  (∀ json, opt_index0 (opt_member json "choices") = VUndefined →
           extract_content json = Some "").
Proof.
  intros Hm Hle%rateLimit_allowed_iff Hc Hnone. split.
  - rewrite (handler_content _ _ _ _ _ _ _ Hm Hle Hc).
    unfold respond_content, parse_content. now rewrite Hnone.
  - intros json E. unfold extract_content. now rewrite E.
Qed.

(** X20.  A content that parses to an array, or to an object with none of the
    five members, is no error: the response is the 200 with the empty
    suggestion. *)
Theorem memberless_content_empty_suggestion req env now fetch recent
    (text : string) (parsed : value) :
  method req = "POST" →
  (rateLimit (client_ip req) rateLimit_default_window now recent).1 = true →
  provider_content JSON_parse req env fetch text →
  parse_content JSON_parse text = Some parsed →
  (∃ elems, parsed = VArr elems) ∨
  (∃ props, parsed = VObj props ∧
            Forall (λ k, own_property k props = None)
              ["title"; "intro"; "steps"; "optional"; "note"]) →
  (handler JSON_parse req env now fetch recent).1.1 = json_response empty_suggestion.
Proof.
  intros Hm Hle%rateLimit_allowed_iff Hc Hp Hshape.
  rewrite (handler_content _ _ _ _ _ _ _ Hm Hle Hc).
  unfold respond_content. rewrite Hp. simpl.
  destruct Hshape as [[elems ->]|(props & -> & Hk)]; [reflexivity|].
  repeat (apply Forall_cons_1 in Hk as [? Hk]).
  unfold sanitize_output, get_member.
  repeat match goal with H : own_property _ props = None |- _ => rewrite H; clear H end.
  reflexivity.
Qed.

End ContentPaths.

(** ** The output object of a well-formed answer *)

Lemma fmap_add_optional_prefix_fixed (l : list string) :
  Forall (λ s, startsWith s "Optional:" = true) l → add_optional_prefix <$> l = l.
Proof.
  induction 1 as [|s l Hs _ IH]; csimpl; [reflexivity|].
  now rewrite add_optional_prefix_fixed, IH.
Qed.

Section StringMembers.

Context {engine : Engine}.

(** X21.  When the five members of the parsed object are strings and arrays
    of strings, the output object has the strings cut to their caps, the first
    8 steps and the first 5 optional entries, each cut to 220 characters, in
    their order, the optional entries with the prefix where it was missing;
    other members of the parsed object are dropped.  Values within the caps,
    with prefixed optional entries, pass through unchanged. *)
Theorem sanitize_output_of_strings (parsed : value)
    (title intro note : string) (steps optional : list string) :
  get_member parsed "title" = Some (VStr title) →
  get_member parsed "intro" = Some (VStr intro) →
  get_member parsed "steps" = Some (VArr (VStr <$> steps)) →
  get_member parsed "optional" = Some (VArr (VStr <$> optional)) →
  get_member parsed "note" = Some (VStr note) →
  sanitize_output parsed
  = Some (VObj [("title", VStr (slice0 title 140));
                ("intro", VStr (slice0 intro 420));
                ("steps", VArr (VStr <$> ((λ s, slice0 s 220) <$> take 8 steps)));
                ("optional",
                 VArr (VStr <$> (add_optional_prefix <$>
                                   ((λ s, slice0 s 220) <$> take 5 optional))));
                ("note", VStr (slice0 note 260))]) ∧
  ((String.length title ≤ 140)%nat → (String.length intro ≤ 420)%nat →
   (String.length note ≤ 260)%nat →
   (length steps ≤ 8)%nat → Forall (λ s, (String.length s ≤ 220)%nat) steps →
   (length optional ≤ 5)%nat →
   Forall (λ s, (String.length s ≤ 220)%nat ∧ startsWith s "Optional:" = true) optional →
   sanitize_output parsed
   = Some (VObj [("title", VStr title); ("intro", VStr intro);
                 ("steps", VArr (VStr <$> steps));
                 ("optional", VArr (VStr <$> optional));
                 ("note", VStr note)])).
Proof.
  intros Ht Hi Hs Ho Hn.
  assert (E : sanitize_output parsed
              = Some (VObj [("title", VStr (slice0 title 140));
                            ("intro", VStr (slice0 intro 420));
                            ("steps", VArr (VStr <$> ((λ s, slice0 s 220) <$> take 8 steps)));
                            ("optional",
                             VArr (VStr <$> (add_optional_prefix <$>
                                               ((λ s, slice0 s 220) <$> take 5 optional))));
                            ("note", VStr (slice0 note 260))])).
  { unfold sanitize_output. rewrite Ht, Hi, Hs, Ho, Hn.
    repeat (first [rewrite bind_some | rewrite safeString_str
                  | rewrite capped_entries_strings]; cbv beta).
    reflexivity. }
  split; [exact E|].
  intros Lt Li Ln Ls1 Ls2 Lo1 Lo2. rewrite E.
  rewrite !slice0_short by lia. rewrite !take_ge by assumption.
  rewrite (fmap_slice0_short steps)
    by (eapply Forall_impl; [exact Ls2|]; simpl; intros; lia).
  rewrite (fmap_slice0_short optional)
    by (eapply Forall_impl; [exact Lo2|]; simpl; intros; lia).
  rewrite fmap_add_optional_prefix_fixed
    by (eapply Forall_impl; [exact Lo2|]; simpl; tauto).
  reflexivity.
Qed.

End StringMembers.

Lemma sanitize_output_of_strings_witness :
  sanitize_output
    (VObj [("note", VStr "Balance with salt to taste.");
           ("servings", VNum (NumOther "2"));
           ("title", VStr "Spinach Rice Skillet");
           ("optional", VArr [VStr "Optional: garlic if you have it"]);
           ("intro", VStr "A quick one-pan dish.");
           ("steps", VArr [VStr "Heat oil in a pan until shimmering"])])
  = Some (VObj [("title", VStr "Spinach Rice Skillet");
                ("intro", VStr "A quick one-pan dish.");
                ("steps", VArr [VStr "Heat oil in a pan until shimmering"]);
                ("optional", VArr [VStr "Optional: garlic if you have it"]);
                ("note", VStr "Balance with salt to taste.")]).
Proof.
  refine (proj2 (sanitize_output_of_strings
                   (VObj [("note", VStr "Balance with salt to taste.");
                          ("servings", VNum (NumOther "2"));
                          ("title", VStr "Spinach Rice Skillet");
                          ("optional", VArr [VStr "Optional: garlic if you have it"]);
                          ("intro", VStr "A quick one-pan dish.");
                          ("steps", VArr [VStr "Heat oil in a pan until shimmering"])])
                   "Spinach Rice Skillet" "A quick one-pan dish."
                   "Balance with salt to taste."
                   ["Heat oil in a pan until shimmering"]
                   ["Optional: garlic if you have it"]
                   eq_refl eq_refl eq_refl eq_refl eq_refl) _ _ _ _ _ _ _);
    try (simpl; lia); repeat constructor; simpl; lia.
Defined.

Section SecondPass.

Context {engine : Engine}.

(** X22.  The sanitization is stable from its second pass on: the object of
    the second pass is the object of every further pass. *)
Theorem sanitize_output_stable_after_two (parsed out : value) :
  sanitize_output parsed = Some out →
  ∃ out2, sanitize_output out = Some out2 ∧ sanitize_output out2 = Some out2.
Proof.
  intros H. destruct (sanitize_output_suggestion _ _ H)
    as (t & i & ss & os & n & -> & Ht & Hi & Hn & Hss1 & Hss2 & Hos1 & Hos2 & _).
  assert (Hpre : Forall (λ s, startsWith s "Optional:" = true) os)
    by (eapply Forall_impl; [exact Hos2|]; simpl; tauto).
  eexists. split; [apply sanitize_output_again; assumption|].
  rewrite sanitize_output_again; try assumption.
  - rewrite (fmap_slice0_short ((λ s, slice0 s 220) <$> os)); [reflexivity|].
    apply Forall_fmap. apply Forall_true. intros s. simpl. now apply slice0_length.
  - now rewrite length_fmap.
  - apply Forall_fmap. eapply Forall_impl; [exact Hpre|].
    intros s Hs. simpl. rewrite startsWith_slice0; [exact Hs|simpl; lia].
Qed.

End SecondPass.

Lemma sanitize_output_stable_after_two_witness :
  ∃ out2,
    sanitize_output
      (VObj [("title", VStr ""); ("intro", VStr ""); ("steps", VArr []);
             ("optional", VArr [VStr ("Optional: " +:+ str_repeat 211 "a")]);
             ("note", VStr "")]) = Some out2 ∧
    sanitize_output out2 = Some out2.
Proof.
  apply (sanitize_output_stable_after_two
           (VObj [("optional", VArr [VStr (str_repeat 211 "a")])])).
  vm_compute. reflexivity.
Defined.

(** ** The further properties on the example requests *)

Lemma missing_api_key_500_witness :
  handler RefJSON.parse (Fixture.post Fixture.ingredients_body)
    {| OPENAI_API_KEY := None |} Fixture.now (Fixture.provider Fixture.recipe) ∅
  = (text_response "Server missing OPENAI_API_KEY" 500,
     <["203.0.113.7" := Fixture.now]> ∅, []).
Proof.
  refine (missing_api_key_500 RefJSON.parse (Fixture.post Fixture.ingredients_body)
            {| OPENAI_API_KEY := None |} Fixture.now (Fixture.provider Fixture.recipe) ∅
            (VStr "eggs, spinach, leftover rice") "eggs, spinach, leftover rice"
            eq_refl (fixture_allowed _) _ _ _ (or_introl eq_refl));
    by_computation.
Defined.

Lemma provider_failure_502_witness :
  handler RefJSON.parse (Fixture.post Fixture.ingredients_body) Fixture.env Fixture.now
    (λ _, HttpResponse false (Some "quota exceeded")) ∅
  = (text_response "quota exceeded" 502, <["203.0.113.7" := Fixture.now]> ∅,
     [build_request "sk-test" "eggs, spinach, leftover rice"]).
Proof.
  refine (proj1 (provider_failure_502 RefJSON.parse
                   (Fixture.post Fixture.ingredients_body) Fixture.env Fixture.now
                   (λ _, HttpResponse false (Some "quota exceeded")) ∅
                   (VStr "eggs, spinach, leftover rice") "eggs, spinach, leftover rice"
                   "sk-test" (Some "quota exceeded")
                   eq_refl (fixture_allowed _) _ _ _ eq_refl eq_refl eq_refl));
    by_computation.
Defined.

Lemma provider_unusable_500_witness :
  handler RefJSON.parse (Fixture.post Fixture.ingredients_body) Fixture.env Fixture.now
    (λ _, NetworkError) ∅
  = (text_response "Server error" 500, <["203.0.113.7" := Fixture.now]> ∅,
     [build_request "sk-test" "eggs, spinach, leftover rice"]).
Proof.
  refine (provider_unusable_500 RefJSON.parse
            (Fixture.post Fixture.ingredients_body) Fixture.env Fixture.now
            (λ _, NetworkError) ∅
            (VStr "eggs, spinach, leftover rice") "eggs, spinach, leftover rice"
            "sk-test" eq_refl (fixture_allowed _) _ _ _ eq_refl eq_refl
            (or_introl eq_refl));
    by_computation.
Defined.

Lemma response_independent_of_key_witness :
  (handler RefJSON.parse (Fixture.post Fixture.ingredients_body)
     {| OPENAI_API_KEY := Some "sk-one" |} Fixture.now
     (Fixture.provider Fixture.recipe) ∅).1
  = (handler RefJSON.parse (Fixture.post Fixture.ingredients_body)
       {| OPENAI_API_KEY := Some "sk-two" |} Fixture.now
       (Fixture.provider Fixture.recipe) ∅).1.
Proof.
  exact (response_independent_of_key RefJSON.parse
           (Fixture.post Fixture.ingredients_body) Fixture.now ∅
           {| OPENAI_API_KEY := Some "sk-one" |} {| OPENAI_API_KEY := Some "sk-two" |}
           (Fixture.provider Fixture.recipe) (Fixture.provider Fixture.recipe)
           "sk-one" "sk-two" eq_refl eq_refl eq_refl eq_refl (λ _, eq_refl)).
Defined.

Lemma other_clients_do_not_interfere_witness :
  (handler RefJSON.parse (Fixture.post Fixture.ingredients_body) Fixture.env
     (Fixture.now + 10) (Fixture.provider Fixture.recipe)
     (handler RefJSON.parse
        {| method := "POST"; x_nf_client_connection_ip := Some "198.51.100.1";
           x_forwarded_for := None; body := Fixture.ingredients_body |}
        Fixture.env Fixture.now (Fixture.provider Fixture.recipe) ∅).1.2).1.1
  = (handler RefJSON.parse (Fixture.post Fixture.ingredients_body) Fixture.env
       (Fixture.now + 10) (Fixture.provider Fixture.recipe) ∅).1.1.
Proof.
  refine (proj1 (other_clients_do_not_interfere RefJSON.parse
                   (Fixture.post Fixture.ingredients_body) Fixture.env
                   (Fixture.now + 10) (Fixture.provider Fixture.recipe)
                   {| method := "POST"; x_nf_client_connection_ip := Some "198.51.100.1";
                      x_forwarded_for := None; body := Fixture.ingredients_body |}
                   Fixture.env Fixture.now (Fixture.provider Fixture.recipe) ∅ _)).
  simpl. discriminate.
Defined.

Lemma cooldown_boundary_witness :
  status (handler RefJSON.parse (Fixture.post Fixture.ingredients_body) Fixture.env
            (Fixture.now + 2499) (Fixture.provider Fixture.recipe)
            (handler RefJSON.parse (Fixture.post Fixture.ingredients_body) Fixture.env
               Fixture.now (Fixture.provider Fixture.recipe) ∅).1.2).1.1 = 429 ∧
  status (handler RefJSON.parse (Fixture.post Fixture.ingredients_body) Fixture.env
            (Fixture.now + 2500) (Fixture.provider Fixture.recipe)
            (handler RefJSON.parse (Fixture.post Fixture.ingredients_body) Fixture.env
               Fixture.now (Fixture.provider Fixture.recipe) ∅).1.2).1.1 ≠ 429.
Proof.
  split.
  - apply (cooldown_boundary RefJSON.parse
             (Fixture.post Fixture.ingredients_body) Fixture.env Fixture.now
             (Fixture.provider Fixture.recipe) ∅
             (Fixture.post Fixture.ingredients_body) Fixture.env (Fixture.now + 2499)
             (Fixture.provider Fixture.recipe) eq_refl (fixture_allowed _) eq_refl eq_refl).
    by_computation.
  - intros E.
    apply (cooldown_boundary RefJSON.parse
             (Fixture.post Fixture.ingredients_body) Fixture.env Fixture.now
             (Fixture.provider Fixture.recipe) ∅
             (Fixture.post Fixture.ingredients_body) Fixture.env (Fixture.now + 2500)
             (Fixture.provider Fixture.recipe) eq_refl (fixture_allowed _) eq_refl eq_refl)
      in E.
    revert E. by_computation.
Defined.

Lemma unidentified_clients_share_entry_witness :
  handler RefJSON.parse
    {| method := "POST"; x_nf_client_connection_ip := Some "";
       x_forwarded_for := None; body := Fixture.ingredients_body |}
    Fixture.env (Fixture.now + 1000) (Fixture.provider Fixture.recipe)
    (handler RefJSON.parse
       {| method := "POST"; x_nf_client_connection_ip := None;
          x_forwarded_for := None; body := "not json" |}
       Fixture.env Fixture.now (Fixture.provider Fixture.recipe) ∅).1.2
  = (text_response "Too many requests. Please slow down." 429,
     <["unknown" := Fixture.now]> ∅, []).
Proof.
  refine (proj2 (proj2 (unidentified_clients_share_entry RefJSON.parse
            {| method := "POST"; x_nf_client_connection_ip := None;
               x_forwarded_for := None; body := "not json" |}
            Fixture.env Fixture.now (Fixture.provider Fixture.recipe) ∅
            {| method := "POST"; x_nf_client_connection_ip := Some "";
               x_forwarded_for := None; body := Fixture.ingredients_body |}
            Fixture.env (Fixture.now + 1000) (Fixture.provider Fixture.recipe)
            eq_refl eq_refl eq_refl eq_refl eq_refl eq_refl _ _)));
    by_computation.
Defined.

Lemma content_without_closing_brace_500_witness :
  (handler RefJSON.parse (Fixture.post Fixture.ingredients_body) Fixture.env
     Fixture.now (Fixture.provider (Fixture.titled +:+ " Enjoy!")) ∅).1.1
  = text_response "Server error" 500.
Proof.
  refine (content_without_closing_brace_500 RefJSON.parse
            (Fixture.post Fixture.ingredients_body) Fixture.env Fixture.now
            (Fixture.provider (Fixture.titled +:+ " Enjoy!")) ∅
            (Fixture.titled +:+ " Enjoy!") eq_refl (fixture_allowed _) _ _ _);
    [content_by_computation|by_computation..].
Defined.

Lemma missing_content_500_witness :
  (handler RefJSON.parse (Fixture.post Fixture.ingredients_body) Fixture.env
     Fixture.now
     (λ _, HttpResponse true (Some ("{" +:+ quoted "choices" +:+ ":[]}"))) ∅).1.1
  = text_response "Server error" 500.
Proof.
  refine (proj1 (missing_content_500 RefJSON.parse
                   (Fixture.post Fixture.ingredients_body) Fixture.env Fixture.now
                   (λ _, HttpResponse true (Some ("{" +:+ quoted "choices" +:+ ":[]}"))) ∅
                   eq_refl (fixture_allowed _) _ _));
    [content_by_computation|by_computation].
Defined.

Lemma memberless_content_empty_suggestion_witness :
  (handler RefJSON.parse (Fixture.post Fixture.ingredients_body) Fixture.env
     Fixture.now (Fixture.provider "[1, 2]") ∅).1.1
  = json_response empty_suggestion.
Proof.
  refine (memberless_content_empty_suggestion RefJSON.parse
            (Fixture.post Fixture.ingredients_body) Fixture.env Fixture.now
            (Fixture.provider "[1, 2]") ∅ "[1, 2]"
            (VArr [VNum (NumOther "1"); VNum (NumOther "2")])
            eq_refl (fixture_allowed _) _ _ (or_introl (ex_intro _ _ eq_refl)));
    [content_by_computation|by_computation].
Defined.

(** ** The entries of the two sequences *)

Section EntryCount.

Context {engine : Engine}.

(** X23.  No entry is filtered out: the steps of the output are as many as
    the parsed steps, up to 8, and the optional entries as many as the parsed
    ones, up to 5, whatever the entries are. *)
Theorem entry_count_kept (parsed out : value) (k : string) (cap : nat)
    (elems : list value) :
  (k, cap) ∈ [("steps", 8%nat); ("optional", 5%nat)] →
  get_member parsed k = Some (VArr elems) →
  sanitize_output parsed = Some out →
  ∃ entries,
    get_member out k = Some (VArr entries) ∧
    length entries = Nat.min cap (length elems).
Proof.
  intros Hk Hm Hout.
  apply sanitize_output_inv in Hout
    as (tv & iv & sv & ov & nv & t & i & ss & os & n &
        _ & _ & _ & _ & Hsv & Hss & Hov & Hos & _ & _ & ->).
  rewrite !elem_of_cons, elem_of_nil in Hk.
  destruct Hk as [[= -> ->]|[[= -> ->]|[]]].
  - rewrite Hm in Hsv. injection Hsv as <-. simpl in Hss.
    apply length_mapM in Hss. rewrite length_take in Hss.
    eexists. split; [reflexivity|]. now rewrite length_fmap.
  - rewrite Hm in Hov. injection Hov as <-. simpl in Hos.
    apply length_mapM in Hos. rewrite length_take in Hos.
    eexists. split; [reflexivity|]. now rewrite !length_fmap.
Qed.

End EntryCount.

Lemma entry_count_kept_witness :
  ∃ entries,
    get_member
      (VObj [("title", VStr ""); ("intro", VStr "");
             ("steps", VArr [VStr "1"; VStr ""; VStr "chop"]);
             ("optional", VArr []); ("note", VStr "")]) "steps"
    = Some (VArr entries) ∧
    length entries = Nat.min 8 3.
Proof.
  refine (entry_count_kept
            (VObj [("steps", VArr [VNum (NumOther "1"); VNull; VStr "chop"])])
            _ "steps" 8%nat [VNum (NumOther "1"); VNull; VStr "chop"]
            _ eq_refl eq_refl).
  apply list_elem_of_here.
Defined.

Section EntryCap.

Context {engine : Engine}.

(** X24.  The entries are cut to the first 8 or 5 before they are converted:
    an entry among them whose conversion throws makes the whole construction
    throw, and the entries behind them are not converted at all, so that they
    cannot make it throw. *)
Theorem entries_converted_within_cap (parsed : value) (k : string) (cap : nat)
    (elems rest : list value) :
  (k, cap) ∈ [("steps", 8%nat); ("optional", 5%nat)] →
  (cap ≤ length elems)%nat →
  capped_entries (VArr (elems ++ rest)) cap = capped_entries (VArr elems) cap ∧
  (get_member parsed k = Some (VArr (elems ++ rest)) →
   (∃ i x, (i < cap)%nat ∧ elems !! i = Some x ∧ safeString x 220 = None) →
   sanitize_output parsed = None).
Proof.
  intros Hk Hcap. split.
  - simpl. now rewrite take_app_le.
  - intros Hm (i & x & Hi & Hx & Hbad).
    assert (Hnone : capped_entries (VArr (elems ++ rest)) cap = None).
    { simpl. apply mapM_None_2. rewrite take_app_le by exact Hcap.
      apply Exists_exists. exists x. split; [|exact Hbad].
      apply list_elem_of_lookup. exists i. now rewrite lookup_take_lt. }
    rewrite !elem_of_cons, elem_of_nil in Hk.
    unfold sanitize_output.
    destruct (get_member parsed "title") as [tv|]; [|reflexivity]. simpl.
    destruct (safeString tv 140); [|reflexivity]. simpl.
    destruct (get_member parsed "intro") as [iv|]; [|reflexivity]. simpl.
    destruct (safeString iv 420); [|reflexivity]. simpl.
    destruct Hk as [[= -> ->]|[[= -> ->]|[]]].
    + rewrite Hm. simpl. simpl in Hnone. now rewrite Hnone.
    + destruct (get_member parsed "steps") as [sv|]; [|reflexivity]. simpl.
      destruct (capped_entries sv 8); [|reflexivity]. simpl.
      rewrite Hm. simpl. simpl in Hnone. now rewrite Hnone.
Qed.

End EntryCap.

Lemma entries_converted_within_cap_witness :
  capped_entries
    (VArr ([VStr "a"; VStr "b"; VStr "c"; VStr "d"; VStr "e"]
           ++ [VObj [("toString", VNull)]])) 5
  = capped_entries (VArr [VStr "a"; VStr "b"; VStr "c"; VStr "d"; VStr "e"]) 5 ∧
  sanitize_output
    (VObj [("optional",
            VArr ([VStr "a"; VObj [("toString", VNull)]; VStr "c"; VStr "d"; VStr "e"]
                  ++ []))]) = None.
Proof.
  split.
  - refine (proj1 (entries_converted_within_cap VNull "optional" 5%nat
                     [VStr "a"; VStr "b"; VStr "c"; VStr "d"; VStr "e"]
                     [VObj [("toString", VNull)]] _ _)).
    + apply list_elem_of_further, list_elem_of_here.
    + simpl. lia.
  - refine (proj2 (entries_converted_within_cap
                     (VObj [("optional",
                             VArr ([VStr "a"; VObj [("toString", VNull)]; VStr "c";
                                    VStr "d"; VStr "e"] ++ []))])
                     "optional" 5%nat
                     [VStr "a"; VObj [("toString", VNull)]; VStr "c"; VStr "d"; VStr "e"]
                     [] _ _) eq_refl _).
    + apply list_elem_of_further, list_elem_of_here.
    + simpl. lia.
    + exists 1%nat, (VObj [("toString", VNull)]).
      split; [lia|]. split; reflexivity.
Defined.

(** ** Values nested deeper than the engine follows *)

Lemma ToString_at_nested (depth n : nat) (s : string) :
  ToString_at depth (nested n (VStr s)) = if (n <=? depth)%nat then Some s else None.
Proof.
  revert depth. induction n as [|n IH]; intros depth; [reflexivity|].
  destruct depth as [|depth]; [reflexivity|].
  change (ToString_at (S depth) (nested (S n) (VStr s)))
    with (match nested n (VStr s) with
          | VUndefined | VNull => Some ""
          | _ => ToString_at depth (nested n (VStr s))
          end).
  rewrite IH. change (S n <=? S depth)%nat with (n <=? depth)%nat.
  destruct n; reflexivity.
Qed.

Section DeepValues.

Context {engine : Engine}.
Variable JSON_parse : string → option value.

(** X25.  A string inside nested arrays is converted to the string itself
    as long as the engine follows the arrays, and the conversion throws on a
    deeper one: ingredients nested deeper than that make a POST that passed
    the rate limit end in the generic 500, before any outbound call. *)
Theorem deep_ingredients_500 (req : Request) (env : Env) (now : Z)
    (fetch : chat_request → fetch_result) (recent : gmap string Z)
    (n : nat) (s : string) :
  method req = "POST" →
  (rateLimit (client_ip req) rateLimit_default_window now recent).1 = true →
  get_member (default (VObj []) (JSON_parse (body req))) "ingredients"
    = Some (nested n (VStr s)) →
  ((n ≤ stack_limit)%nat → ∀ max, safeString (nested n (VStr s)) max = Some (slice0 s max)) ∧
  ((stack_limit < n)%nat →
   handler JSON_parse req env now fetch recent
   = (text_response "Server error" 500, <[client_ip req := now]> recent, [])).
Proof.
  intros Hm Hle%rateLimit_allowed_iff Hing.
  assert (Hconv : ToString (nested n (VStr s))
                  = if (n <=? stack_limit)%nat then Some s else None)
    by apply ToString_at_nested.
  split.
  - intros Hn max. destruct n as [|n]; [apply safeString_str|].
    unfold safeString. simpl ToBoolean. cbv iota. rewrite Hconv.
    destruct (Nat.leb_spec (S n) stack_limit); [reflexivity|lia].
  - intros Hn. rewrite handler_allowed by assumption.
    unfold process. rewrite Hing.
    destruct n as [|n]; [lia|].
    unfold safeString. simpl ToBoolean. cbv iota. rewrite Hconv.
    destruct (Nat.leb_spec (S n) stack_limit); [lia|reflexivity].
Qed.

End DeepValues.

Lemma deep_ingredients_500_witness :
  handler (engine := {| stack_limit := 2 |}) RefJSON.parse
    (Fixture.post ("{" +:+ quoted "ingredients" +:+ ":[[[" +:+ quoted "eggs" +:+ "]]]}"))
    Fixture.env Fixture.now (Fixture.provider Fixture.recipe) ∅
  = (text_response "Server error" 500, <["203.0.113.7" := Fixture.now]> ∅, []).
Proof.
  refine (proj2 (deep_ingredients_500 (engine := {| stack_limit := 2 |}) RefJSON.parse
                   (Fixture.post ("{" +:+ quoted "ingredients" +:+ ":[[["
                                  +:+ quoted "eggs" +:+ "]]]}"))
                   Fixture.env Fixture.now (Fixture.provider Fixture.recipe) ∅
                   3 "eggs" eq_refl (fixture_allowed _) _) _).
  - by_computation.
  - simpl. lia.
Defined.

